(** * scheduler-frontend: ingestion, aggregation and timeline drag logic

  A shallow embedding of the data-transformation code of [src/App.js]
  (CSV ingestion, schema normalisation, duplicate-upload rejection,
  project and store summaries, the Gantt date domain and the drag state
  machine), followed by the properties established about it.

  Conventions of the embedding.
  - A JavaScript [Date] is its time value: integer milliseconds since the
    epoch, as [Z]; [null] and Invalid Date are [None].  The +-8.64e15 ms
    clip of time values is not modelled.
  - The host's local time zone is a constant offset [tz] (milliseconds
    east of UTC); daylight-saving transitions are not modelled.
  - [new Date(string)] on a non-ISO string is implementation-defined, so
    it is a parameter [newDate] of the definitions; [RefHost] gives one
    concrete host for the slash-separated year/month/day form.
  - [String.prototype.localeCompare] is a parameter as well.
  - Strings are sequences of 8-bit code units.
  - Plain objects used as dictionaries are finite maps; keys inherited
    from [Object.prototype] are not modelled. *)

From Stdlib Require Import ZArith Lia Ascii String List Permutation.
From stdpp Require Import base option list strings gmap pretty.

Local Open Scope Z_scope.

(** ** Time values and the civil calendar *)

Module JsDate.

Definition msPerDay : Z := 1000 * 60 * 60 * 24.

(** Day number (days since 1970-01-01) of a proleptic Gregorian date.
    A day of month outside the month rolls over, as [MakeDay] does. *)
Definition days_from_civil (y m d : Z) : Z :=
  let y' := if m <=? 2 then y - 1 else y in
  let era := y' / 400 in
  let yoe := y' - era * 400 in
  let mp := if 2 <? m then m - 3 else m + 9 in
  let doy := (153 * mp + 2) / 5 + d - 1 in
  let doe := yoe * 365 + yoe / 4 - yoe / 100 + doy in
  era * 146097 + doe - 719468.

(** Year, month (1..12) and day of month (1..31) of a day number. *)
Definition civil_from_days (z : Z) : Z * Z * Z :=
  let z' := z + 719468 in
  let era := z' / 146097 in
  let doe := z' - era * 146097 in
  let yoe := (doe - doe / 1460 + doe / 36524 - doe / 146096) / 365 in
  let doy := doe - (365 * yoe + yoe / 4 - yoe / 100) in
  let mp := (5 * doy + 2) / 153 in
  let d := doy - (153 * mp + 2) / 5 + 1 in
  let m := if mp <? 10 then mp + 3 else mp - 9 in
  (yoe + era * 400 + (if m <=? 2 then 1 else 0), m, d).

(** [Day(t)]: the UTC day number of a time value. *)
Definition utcDay (t : Z) : Z := t / msPerDay.

(** [Math.round(a / b)] for integers [a] and [b > 0]: the nearest
    integer, ties towards +infinity. *)
Definition roundDiv (a b : Z) : Z := (2 * a + b) / (2 * b).

(** The [w] low-order decimal digits of [n], most significant first. *)
Definition digitChar (n : Z) : ascii :=
  ascii_of_nat (48 + Z.to_nat (n mod 10)).

Fixpoint digits (w : nat) (n : Z) : list ascii :=
  match w with
  | O => []
  | S w' => digits w' (n / 10) ++ [digitChar n]
  end.

(** The year of [toISOString]: four digits for 0..9999, otherwise a sign
    and six digits (more only beyond the range of valid time values). *)
Definition isoYear (y : Z) : list ascii :=
  if (0 <=? y) && (y <=? 9999) then digits 4 y
  else
    let a := Z.abs y in
    (if y <? 0 then "-"%char else "+"%char)
      :: (if a <? 1000000 then [] else list_ascii_of_string (pretty (a / 1000000)))
      ++ digits 6 a.

(** [toISOString().split('T')[0]] of the day with number [day]. *)
Definition isoDate (day : Z) : string :=
  let '(y, m, d) := civil_from_days day in
  string_of_list_ascii
    (isoYear y ++ "-"%char :: digits 2 m ++ "-"%char :: digits 2 d).

End JsDate.

(** ** A reference host for [new Date(string)] *)

Module RefHost.
Import JsDate.

Definition digitVal (c : ascii) : option Z :=
  let n := Z.of_nat (nat_of_ascii c) in
  if (48 <=? n) && (n <=? 57) then Some (n - 48) else None.

(** Reads a maximal run of decimal digits: its value, its length and the
    remaining text. *)
Fixpoint readDigits (acc : Z) (len : nat) (s : string) : Z * nat * string :=
  match s with
  | EmptyString => (acc, len, s)
  | String c s' =>
      match digitVal c with
      | Some v => readDigits (10 * acc + v) (S len) s'
      | None => (acc, len, s)
      end
  end.

Definition expectSlash (s : string) : option string :=
  match s with
  | String "/"%char s' => Some s'
  | _ => None
  end.

(** The time of day after the date: nothing (midnight), or a space and
    H:MM or HH:MM (hours 0..23, minutes 0..59), in milliseconds. *)
Definition timeOfDay (s : string) : option Z :=
match s with
| EmptyString => Some 0
| String " "%char s1 =>
    let '(h, lh, s2) := readDigits 0 0 s1 in
    if negb ((Nat.leb 1 lh) && (Nat.leb lh 2) && (h <=? 23)) then None else
    match s2 with
    | String ":"%char s3 =>
        let '(mi, lmi, s4) := readDigits 0 0 s3 in
        if negb ((Nat.eqb lmi 2) && (mi <=? 59)) then None else
        match s4 with
        | EmptyString => Some ((h * 60 + mi) * 60000)
        | _ => None
        end
    | _ => None
    end
| _ => None
end.

(** Local time value of a text of the form YYYY/M/D, optionally followed
    by a time of day (four-digit year, one or two digits for month and
    day, month 1..12, day 1..31; a day past the end of the month rolls
    over).  Any other text is unparseable for this host. *)
Definition localYMD (s : string) : option Z :=
let '(y, ly, s1) := readDigits 0 0 s in
if negb (Nat.eqb ly 4) then None else
s2 ← expectSlash s1;
let '(m, lm, s3) := readDigits 0 0 s2 in
if negb ((Nat.leb 1 lm) && (Nat.leb lm 2) && (1 <=? m) && (m <=? 12)) then None else
s4 ← expectSlash s3;
let '(d, ld, s5) := readDigits 0 0 s4 in
if negb ((Nat.leb 1 ld) && (Nat.leb ld 2) && (1 <=? d) && (d <=? 31)) then None else
ms ← timeOfDay s5;
Some (days_from_civil y m d * msPerDay + ms).

(** [new Date(s).getTime()] in a zone [tz] milliseconds east of UTC. *)
Definition newDate (tz : Z) (s : string) : option Z :=
  (λ l, l - tz) <$> localYMD s.

(** Code-unit order, standing for [localeCompare]. *)
Definition localeCompare (a b : string) : Z :=
  match String.compare a b with
  | Lt => -1
  | Eq => 0
  | Gt => 1
  end.

End RefHost.

(** ** Date helpers of the module (lines 4-35) *)

Section DateHelpers.
Import JsDate.

(** Host parameters. *)
Variable tz : Z.
Variable newDate : string → option Z.

Definition localTime (t : Z) : Z := t + tz.
Definition utc (t : Z) : Z := t - tz.

Fixpoint replaceDash (s : string) : string :=
  match s with
  | EmptyString => EmptyString
  | String c s' => String (if Ascii.eqb c "-" then "/"%char else c) (replaceDash s')
  end.

(** [parseDate]: [None] is both a missing/non-string argument and the
    [null] result. *)
Definition parseDate (dateStr : option string) : option Z :=
  match dateStr with
  | None => None
  | Some s => if String.eqb s "" then None else newDate (replaceDash s)
  end.

(** [formatDate] on a [Date] argument ([None] is null or Invalid Date). *)
Definition formatDate (date : option Z) : string :=
  match date with
  | None => ""
  | Some t => isoDate (utcDay t)
  end.

(** [addDays]: [setDate(getDate() + days)] moves the local calendar date
    by [days] and keeps the local time of day. *)
Definition addDays (date : Z) (days : Z) : Z :=
  utc (localTime date + days * msPerDay).

End DateHelpers.

(** ** Tabular ingestion: [robustCsvParse] (lines 233-257) *)

Module Csv.

Definition dquote : ascii := "034"%char.

Definition isWhite (c : ascii) : bool :=
  match nat_of_ascii c with
  | 9 | 10 | 11 | 12 | 13 | 32 | 160 => true
  | _ => false
  end%nat.

Fixpoint trimStart (s : string) : string :=
  match s with
  | EmptyString => EmptyString
  | String c s' => if isWhite c then trimStart s' else s
  end.

(** [String.prototype.trim]. *)
Definition trim (s : string) : string :=
  String.rev (trimStart (String.rev (trimStart s))).

(** [replace(/\r/g, '')]. *)
Fixpoint removeCR (s : string) : string :=
  match s with
  | EmptyString => EmptyString
  | String c s' => if Ascii.eqb c "013" then removeCR s' else String c (removeCR s')
  end.

(** [split('\n')]: always at least one piece. *)
Fixpoint splitLines (s : string) : list string :=
  match s with
  | EmptyString => [EmptyString]
  | String c s' =>
      if Ascii.eqb c "010" then EmptyString :: splitLines s'
      else match splitLines s' with
           | [] => [String c EmptyString]
           | l :: ls => String c l :: ls
           end
  end.

(** Inner loop of a quoted field, entered after the opening quote: the
    field text with doubled quotes collapsed, and the text after the
    closing quote. *)
Fixpoint scanQuoted (s : string) : string * string :=
  match s with
  | EmptyString => (EmptyString, EmptyString)
  | String c t =>
      if Ascii.eqb c dquote then
        match t with
        | String c' t' =>
            if Ascii.eqb c' dquote then
              let '(f, r) := scanQuoted t' in (String dquote f, r)
            else (EmptyString, t)
        | EmptyString => (EmptyString, t)
        end
      else let '(f, r) := scanQuoted t in (String c f, r)
  end.

(** Inner loop of an unquoted field: the text up to the next comma, and
    the text from that comma on. *)
Fixpoint scanPlain (s : string) : string * string :=
  match s with
  | EmptyString => (EmptyString, EmptyString)
  | String c t =>
      if Ascii.eqb c "," then (EmptyString, s)
      else let '(f, r) := scanPlain t in (String c f, r)
  end.

Definition skipComma (s : string) : string :=
  match s with
  | String c t => if Ascii.eqb c "," then t else s
  | EmptyString => s
  end.

(** The outer [while (i < rowString.length)] loop; every round consumes
    at least one character, so [fuel] is the length of the row. *)
Fixpoint splitLoop (fuel : nat) (s : string) : list string :=
  match fuel with
  | O => []
  | S fuel' =>
      match s with
      | EmptyString => []
      | String c t =>
          let '(field, rest) :=
            if Ascii.eqb c dquote then scanQuoted t else scanPlain s in
          field :: splitLoop fuel' (skipComma rest)
      end
  end.

Definition endsWithComma (s : string) : bool :=
  match String.rev s with
  | String c _ => Ascii.eqb c ","
  | EmptyString => false
  end.

Definition splitCsvRow (rowString : string) : list string :=
  splitLoop (String.length rowString) rowString
    ++ (if endsWithComma rowString then [EmptyString] else []).

Record CsvError := { message : string }.

Record ParseResult := {
  data : list (gmap string string);
  errors : list CsvError
}.

(** [rowObject[header[j]] = rowValues[j] || ''] for [j] in order. *)
Fixpoint rowObject (header rowValues : list string) (acc : gmap string string)
  : gmap string string :=
  match header, rowValues with
  | h :: hs, v :: vs => rowObject hs vs (<[h := v]> acc)
  | h :: hs, [] => rowObject hs [] (<[h := EmptyString]> acc)
  | [], _ => acc
  end.

Definition columnError (i : nat) (expected found : nat) : CsvError :=
  {| message := "Row " +:+ pretty (i + 1)%nat +:+ " has incorrect columns (expected "
                  +:+ pretty expected +:+ ", found " +:+ pretty found +:+ "). Skipping." |}.

(** [!lines[i] || !lines[i].trim()]. *)
Definition isBlank (line : string) : bool := String.eqb (trim line) "".

(** The [for (let i = 1; ...)] loop from index [i] on, [lines] being the
    lines still to visit. *)
Fixpoint parseLines (header : list string) (i : nat) (lines : list string)
    (acc : ParseResult) : ParseResult :=
  match lines with
  | [] => acc
  | line :: rest =>
      if isBlank line then parseLines header (S i) rest acc
      else
        let rowValues := splitCsvRow line in
        if negb (Nat.eqb (length rowValues) (length header)) then
          parseLines header (S i) rest
            {| data := data acc;
               errors := errors acc ++ [columnError i (length header) (length rowValues)] |}
        else
          parseLines header (S i) rest
            {| data := data acc ++ [rowObject header rowValues ∅];
               errors := errors acc |}
  end.

Definition csvLines (csvText : string) : list string :=
  splitLines (removeCR (trim csvText)).

Definition robustCsvParse (csvText : string) : ParseResult :=
  match csvLines csvText with
  | headerLine :: (_ :: _) as dataLines =>
      parseLines (trim <$> splitCsvRow headerLine) 1 dataLines
        {| data := []; errors := [] |}
  | _ => {| data := []; errors := [ {| message := "CSV has no data rows." |} ] |}
  end.

End Csv.

(** ** Shared JavaScript idioms *)

(** Truthiness of a string-or-undefined value. *)
Definition truthy (v : option string) : bool :=
match v with
| Some s => negb (String.eqb s "")
| None => false
end.

(** [a || b] on string-or-undefined values. *)
Definition jsOr (a b : option string) : option string :=
if truthy a then a else b.

(** [Array.prototype.sort] with a comparator: stable, an element moves
    behind another only when the comparator is positive. *)
Fixpoint sortInsert {A} (cmp : A → A → Z) (x : A) (l : list A) : list A :=
match l with
| [] => [x]
| y :: l' => if cmp x y <=? 0 then x :: l else y :: sortInsert cmp x l'
end.

Definition sortBy {A} (cmp : A → A → Z) (l : list A) : list A :=
foldr (sortInsert cmp) [] l.

(** [new Set(list)] followed by a spread: first occurrences, in order. *)
Fixpoint setOfList (seen l : list string) : list string :=
match l with
| [] => []
| x :: l' => if bool_decide (x ∈ seen) then setOfList seen l'
             else x :: setOfList (x :: seen) l'
end.

(** [list.join(sep)]. *)
Fixpoint join (sep : string) (l : list string) : string :=
match l with
| [] => ""
| [x] => x
| x :: l' => x +:+ sep +:+ join sep l'
end.

(** ** Schema normaliser and upload handler (lines 177-185, 344-388) *)

Module Normalizer.

(** The alias table, in the order [for (const key in renamedCols)] visits it. *)
Definition renamedCols : list (string * string) :=
[ ("Game", "Project"); ("Project", "Project");
  ("Expected Hours", "Estimated Hours"); ("Labor Time", "Estimated Hours");
  ("Estimated Hours", "Estimated Hours");
  ("Due Date", "DueDate"); ("Start Date", "StartDate");
  ("Value", "Value"); ("Store", "Store") ].

(** One round of the alias loop: [if (row[key]) newRow[renamedCols[key]] = row[key]]. *)
Definition renameStep (row : gmap string string) (newRow : gmap string string)
  (entry : string * string) : gmap string string :=
if truthy (row !! entry.1) then <[entry.2 := default "" (row !! entry.1)]> newRow
else newRow.

(** The first [map] of [loadAndCleanData]: [newRow] starts as a copy of [row]. *)
Definition renameRow (row : gmap string string) : gmap string string :=
fold_left (renameStep row) renamedCols row.

Fixpoint skipWhite (s : string) : string :=
match s with
| EmptyString => EmptyString
| String c s' => if Csv.isWhite c then skipWhite s' else s
end.

(** [parseInt(v, 10)]: [None] is NaN.  Leading white space, an optional
    sign, then the longest run of decimal digits. *)
Definition parseInt10 (v : option string) : option Z :=
match v with
| None => None
| Some s =>
    let s1 := skipWhite s in
    let '(neg, s2) :=
      match s1 with
      | String "-"%char t => (true, t)
      | String "+"%char t => (false, t)
      | _ => (false, s1)
      end in
    let '(n, len, _) := RefHost.readDigits 0 0 s2 in
    if Nat.eqb len 0 then None else Some (if neg then - n else n)
end.

Definition isDigit (c : ascii) : bool := bool_decide (is_Some (RefHost.digitVal c)).

Fixpoint isPrefix (p s : string) : bool :=
match p, s with
| EmptyString, _ => true
| String a p', String b s' => Ascii.eqb a b && isPrefix p' s'
| _, _ => false
end.

(** Whether [parseFloat] reads a number off the text: after white space
    and an optional sign there is a digit, a point followed by a digit, or
    the word Infinity. *)
Definition floatReadable (s : string) : bool :=
let s1 := skipWhite s in
let s2 :=
  match s1 with
  | String "-"%char t => t
  | String "+"%char t => t
  | _ => s1
  end in
match s2 with
| String c t =>
    isDigit c
    || (Ascii.eqb c "." && match t with String c' _ => isDigit c' | _ => false end)
    || isPrefix "Infinity" s2
| EmptyString => false
end.

(** [parseFloat(v)]: [None] is NaN; a number is carried as the text it was
    read from (floating-point values are not modelled). *)
Definition parseFloat (v : option string) : option string :=
match v with
| Some s => if floatReadable s then Some s else None
| None => None
end.

(** [replace(/,/g, '')]. *)
Fixpoint removeCommas (s : string) : string :=
match s with
| EmptyString => EmptyString
| String c s' => if Ascii.eqb c "," then removeCommas s' else String c (removeCommas s')
end.

(** A row after the coercing [map]: [fields] is the spread [...row]; the
    other components are the properties the object literal overrides. *)
Record CleanRow := {
  fields : gmap string string;
  EstimatedHours : option string;
  Order : option Z;
  DueDate : option Z;
  StartDate : option Z;
  Value : string;
  Store : string
}.

(** [row.Project] and [row.SKU] of a coerced row. *)
Definition Project (r : CleanRow) : option string := fields r !! "Project".
Definition SKU (r : CleanRow) : option string := fields r !! "SKU".

Record AppState := {
  projectTasks : list CleanRow;
  error : string;
  projectFileName : string;
  logs : list string
}.

Definition addLog (msg : string) (st : AppState) : AppState :=
{| projectTasks := projectTasks st; error := error st;
   projectFileName := projectFileName st; logs := logs st ++ [msg] |}.

Definition setError (msg : string) (st : AppState) : AppState :=
{| projectTasks := projectTasks st; error := msg;
   projectFileName := projectFileName st; logs := logs st |}.

Definition setProjectTasks (f : list CleanRow → list CleanRow) (st : AppState) : AppState :=
{| projectTasks := f (projectTasks st); error := error st;
   projectFileName := projectFileName st; logs := logs st |}.

Definition setProjectFileName (name : string) (st : AppState) : AppState :=
{| projectTasks := projectTasks st; error := error st;
   projectFileName := name; logs := logs st |}.

Record BuiltProject := { name : string; store : string }.

Section Host.

Variable newDate : string → option Z.
Variable localeCompare : string → string → Z.

(** The coercing [map] of [loadAndCleanData]. *)
Definition coerceRow (row : gmap string string) : CleanRow :=
{| fields := row;
   EstimatedHours := parseFloat (row !! "Estimated Hours");
   Order := parseInt10 (row !! "Order");
   DueDate := parseDate newDate (row !! "DueDate");
   StartDate := parseDate newDate (row !! "StartDate");
   Value := match row !! "Value" with
            | Some v => if floatReadable (removeCommas v) then removeCommas v else "0"
            | None => "0"
            end;
   Store := default "N/A" (jsOr (row !! "Store") (Some "N/A")) |}.

(** The [filter] of [loadAndCleanData]. *)
Definition keepRow (r : CleanRow) : bool :=
truthy (Project r) && truthy (SKU r) && negb (String.eqb (Store r) "")
&& bool_decide (is_Some (Order r)) && bool_decide (is_Some (DueDate r))
&& bool_decide (is_Some (StartDate r)) && bool_decide (is_Some (EstimatedHours r)).

Definition cleanRows (data : list (gmap string string)) : list CleanRow :=
filter (λ r, keepRow r = true) (coerceRow <$> (renameRow <$> data)).

(** [loadAndCleanData]: the result ([None] is [null]) and the state after
    its log and error updates. *)
Definition loadAndCleanData (data : list (gmap string string)) (st : AppState)
  : option (list CleanRow) * AppState :=
let st := addLog "Loading and cleaning project data..." st in
match data with
| [] => (Some [], addLog "No data provided to clean." st)
| _ :: _ =>
    let processed := cleanRows data in
    match processed with
    | [] =>
        (None,
         addLog "Error: No valid data rows found."
           (setError "No valid data rows found after cleaning. Check required columns: Project, SKU, Store, Order, DueDate, StartDate, and Estimated Hours." st))
    | _ :: _ =>
        (Some processed,
         addLog ("Successfully loaded and cleaned " +:+ pretty (length processed) +:+ " rows.") st)
    end
end.

(** [builtProjects]: one entry per distinct non-empty project name of the
    loaded tasks, in name order. *)
Fixpoint builtProjectsAcc (acc : list BuiltProject) (tasks : list CleanRow) : list BuiltProject :=
match tasks with
| [] => acc
| task :: rest =>
    let p := default "" (Project task) in
    if truthy (Project task) && negb (bool_decide (p ∈ name <$> acc))
    then builtProjectsAcc (acc ++ [ {| name := p; store := Store task |} ]) rest
    else builtProjectsAcc acc rest
end.

Definition builtProjects (tasks : list CleanRow) : list BuiltProject :=
sortBy (λ a b, localeCompare (name a) (name b)) (builtProjectsAcc [] tasks).

Definition duplicateNames (cleanedData : list CleanRow) (st : AppState) : list string :=
let incomingProjectNames := setOfList [] ((λ t, default "" (Project t)) <$> cleanedData) in
let existingProjectNames := name <$> builtProjects (projectTasks st) in
filter (λ n, n ∈ existingProjectNames) incomingProjectNames.

Definition duplicateError (duplicates : list string) : string :=
"Upload failed. The following projects already exist: " +:+ join ", " duplicates
  +:+ ". Please remove them or use unique names in your CSV.".

(** The [reader.onload] callback of [handleFileChange], after the
    [setError('')] that precedes the read. *)
Definition handleFileChange (fileName csvText : string) (st : AppState) : AppState :=
let st := setError "" st in
let results := Csv.robustCsvParse csvText in
let st :=
  match Csv.errors results with
  | [] => st
  | _ :: _ =>
      setError ("CSV file '" +:+ fileName +:+ "' has issues.")
        (fold_left (λ s err, addLog ("Parsing Warning (" +:+ fileName +:+ "): " +:+ Csv.message err) s)
           (Csv.errors results) st)
  end in
let '(cleanedData, st) := loadAndCleanData (Csv.data results) st in
match cleanedData with
| Some (c :: cs) =>
    let cleaned := c :: cs in
    match duplicateNames cleaned st with
    | (_ :: _) as duplicates => setError (duplicateError duplicates) st
    | [] =>
        let st := setProjectTasks (λ prevTasks, prevTasks ++ cleaned) st in
        let st := setProjectFileName fileName st in
        match Csv.errors results with
        | [] => setError "" st
        | _ :: _ => st
        end
    end
| _ =>
    match Csv.data results with
    | [] => setError "No valid data could be processed from the project CSV file." st
    | _ :: _ => st
    end
end.

End Host.

End Normalizer.

(** ** Aggregation engine: project and store summaries (lines 543-576) *)

Module Aggregation.
Import JsDate.

(** A row of [results.projectSummary] as the remote service sends it. *)
Record ProjectRow := {
  Project : string;
  Store : string;
  StartDate : option string;
  DueDate : option string;
  FinishDate : option string
}.

(** [{ ...p, OriginalStartDate: p.StartDate, daysVariance: diffDays }]. *)
Record ProjectSummary := {
  row : ProjectRow;
  OriginalStartDate : option string;
  daysVariance : Z
}.

(** An entry of [storeSummaryMap]: the dates are still [Date] objects. *)
Record StoreAcc := {
  accStore : string;
  accStartDate : Z;
  accFinishDate : Z;
  accDueDate : Z
}.

(** An entry of [storeSummaryList]. *)
Record StoreSummary := {
  sStore : string;
  sStartDate : string;
  sFinishDate : string;
  sDueDate : string;
  sDaysVariance : Z
}.

Section Host.

Variable newDate : string → option Z.
Variable localeCompare : string → string → Z.
Variable endDateOverrides : gmap string string.

(** [endDateOverrides[p.Project] || p.DueDate]. *)
Definition effectiveDueDateStr (p : ProjectRow) : option string :=
jsOr (endDateOverrides !! Project p) (DueDate p).

Definition diffDays (due finish : option Z) : Z :=
match due, finish with
| Some d, Some f => roundDiv (d - f) msPerDay
| _, _ => 0
end.

Definition summarize (p : ProjectRow) : ProjectSummary :=
let effectiveDueDate := parseDate newDate (effectiveDueDateStr p) in
let finishDate := parseDate newDate (FinishDate p) in
{| row := p; OriginalStartDate := StartDate p;
   daysVariance := diffDays effectiveDueDate finishDate |}.

(** [a.Store.localeCompare(b.Store) || a.Project.localeCompare(b.Project)]. *)
Definition compareSummaries (a b : ProjectSummary) : Z :=
let c := localeCompare (Store (row a)) (Store (row b)) in
if c =? 0 then localeCompare (Project (row a)) (Project (row b)) else c.

Definition projectSummaryList (projectSummary : list ProjectRow) : list ProjectSummary :=
sortBy compareSummaries (summarize <$> projectSummary).

(** The update of [storeSummaryMap[store]]; the map keeps its keys in
    insertion order. *)
Fixpoint accumulate (store : string) (startDate finishDate dueDate : Z)
    (m : list (string * StoreAcc)) : list (string * StoreAcc) :=
match m with
| [] => [ (store, {| accStore := store; accStartDate := startDate;
                     accFinishDate := finishDate; accDueDate := dueDate |}) ]
| (k, a) :: m' =>
    if String.eqb k store then
      (k, {| accStore := accStore a;
             accStartDate := if startDate <? accStartDate a then startDate else accStartDate a;
             accFinishDate := if accFinishDate a <? finishDate then finishDate else accFinishDate a;
             accDueDate := if accDueDate a <? dueDate then dueDate else accDueDate a |}) :: m'
    else (k, a) :: accumulate store startDate finishDate dueDate m'
end.

(** The body of [projectSummaryList.forEach]. *)
Definition storeStep (m : list (string * StoreAcc)) (p : ProjectSummary)
  : list (string * StoreAcc) :=
match parseDate newDate (StartDate (row p)),
      parseDate newDate (FinishDate (row p)),
      parseDate newDate (effectiveDueDateStr (row p)) with
| Some startDate, Some finishDate, Some dueDate =>
    accumulate (Store (row p)) startDate finishDate dueDate m
| _, _, _ => m
end.

Definition storeSummaryMap (l : list ProjectSummary) : list (string * StoreAcc) :=
fold_left storeStep l [].

Definition finishStore (s : StoreAcc) : StoreSummary :=
{| sStore := accStore s;
   sStartDate := formatDate (Some (accStartDate s));
   sFinishDate := formatDate (Some (accFinishDate s));
   sDueDate := formatDate (Some (accDueDate s));
   sDaysVariance := roundDiv (accDueDate s - accFinishDate s) msPerDay |}.

Definition storeSummaryList (l : list ProjectSummary) : list StoreSummary :=
sortBy (λ a b, localeCompare (sStore a) (sStore b))
  (finishStore <$> (snd <$> storeSummaryMap l)).

(** [summaryData] as set on job completion: the project and the store view. *)
Definition summaryData (projectSummary : list ProjectRow)
  : list ProjectSummary * list StoreSummary :=
let project := projectSummaryList projectSummary in
(project, storeSummaryList project).

End Host.

End Aggregation.

(** ** Interactive timeline: domain and drag state machine (lines 1166-1308) *)

Module Gantt.
Import JsDate Aggregation.

Inductive DragType := Move | ResizeStart | ResizeEnd.

Record DragState := {
  type : DragType;
  project : ProjectSummary;
  startX : Z;
  initialStartDate : Z;
  initialFinishDate : Z;
  visualStartDate : Z;
  visualFinishDate : Z
}.

(** Calls of [onDateChange] and [onEndDateChange]: project and ISO date. *)
Inductive OverrideEvent :=
| StartDateChange (projectId : string) (newDate : string)
| EndDateChange (projectId : string) (newDate : string).

Definition marginRight : Z := 20.
Definition marginLeft : Z := 150.

Fixpoint minList (x : Z) (l : list Z) : Z :=
match l with
| [] => x
| y :: l' => minList (Z.min x y) l'
end.

Fixpoint maxList (x : Z) (l : list Z) : Z :=
match l with
| [] => x
| y :: l' => maxList (Z.max x y) l'
end.

Section Host.

Variable tz : Z.
Variable newDate : string → option Z.
Variable startDateOverrides : gmap string string.
Variable endDateOverrides : gmap string string.

(** The four dates a project contributes to the domain. *)
Definition projectDates (p : ProjectSummary) : list (option Z) :=
[ parseDate newDate (OriginalStartDate p);
  parseDate newDate (DueDate (row p));
  parseDate newDate (jsOr (startDateOverrides !! Project (row p)) (StartDate (row p)));
  parseDate newDate (jsOr (endDateOverrides !! Project (row p)) (FinishDate (row p))) ].

Definition validTimestamps (projects : list ProjectSummary) : list Z :=
omap id (projects ≫= projectDates).

(** The memoised [{ minDate, maxDate }]; [None] is the pair of nulls. *)
Definition dateRange (projects : list ProjectSummary) : option (Z * Z) :=
match validTimestamps projects with
| [] => None
| t :: ts => Some (addDays tz (minList t ts) (-7), addDays tz (maxList t ts) 7)
end.


Definition planDates (p : ProjectSummary) : option (Z * Z) :=
match parseDate newDate (jsOr (startDateOverrides !! Project (row p)) (OriginalStartDate p)),
      parseDate newDate (jsOr (endDateOverrides !! Project (row p)) (DueDate (row p))) with
| Some s, Some f => Some (s, f)
| _, _ => None
end.


(** [handleMouseDown]: the drag state after the press. *)
Definition handleMouseDown (clientX : Z) (p : ProjectSummary) (ty : DragType)
    (dragState : option DragState) : option DragState :=
match planDates p with
| Some (initialStart, initialFinish) =>
    Some {| type := ty; project := p; startX := clientX;
            initialStartDate := initialStart; initialFinishDate := initialFinish;
            visualStartDate := initialStart; visualFinishDate := initialFinish |}
| None => dragState
end.

(** The visual dates a pointer move assigns.  [dayDelta] is the value of
    [Math.round(deltaX / pixelsPerDay)], which the source computes in
    floating point from the pointer position; a quotient that is not
    finite (plot width exactly zero) is outside the model. *)
Definition moveDates (ds : DragState) (dayDelta : Z) : Z * Z :=
match type ds with
| Move =>
    let newVisualStart := addDays tz (initialStartDate ds) dayDelta in
    let duration := initialFinishDate ds - initialStartDate ds in
    (newVisualStart, newVisualStart + duration)
| ResizeEnd =>
    let newVisualStart := initialStartDate ds in
    let newVisualFinish := addDays tz (initialFinishDate ds) dayDelta in
    if newVisualFinish <=? newVisualStart
    then (newVisualStart, addDays tz newVisualStart 1)
    else (newVisualStart, newVisualFinish)
| ResizeStart =>
    let newVisualFinish := initialFinishDate ds in
    let newVisualStart := addDays tz (initialStartDate ds) dayDelta in
    if newVisualFinish <=? newVisualStart
    then (addDays tz newVisualFinish (-1), newVisualFinish)
    else (newVisualStart, newVisualFinish)
end.

(** [handleMouseMove], with the guards of its first lines. *)
Definition handleMouseMove (width : Z) (range : option (Z * Z)) (dayDelta : Z)
    (dragState : option DragState) : option DragState :=
match dragState, range with
| Some ds, Some (lo, hi) =>
    if (width <=? 0) || (hi - lo <=? 0) then dragState
    else
      let '(newVisualStart, newVisualFinish) := moveDates ds dayDelta in
      Some {| type := type ds; project := project ds; startX := startX ds;
              initialStartDate := initialStartDate ds;
              initialFinishDate := initialFinishDate ds;
              visualStartDate := newVisualStart;
              visualFinishDate := newVisualFinish |}
| _, _ => dragState
end.

(** [handleMouseUp]: the override changes it reports, in order; the drag
    state is null afterwards. *)
Definition handleMouseUp (dragState : option DragState) : list OverrideEvent :=
match dragState with
| None => []
| Some ds =>
    let pid := Project (row (project ds)) in
    match type ds with
    | Move =>
        if bool_decide (formatDate (Some (visualStartDate ds)) ≠ formatDate (Some (initialStartDate ds)))
        then
          let duration := initialFinishDate ds - initialStartDate ds in
          let newEndDate := visualStartDate ds + duration in
          [ StartDateChange pid (formatDate (Some (visualStartDate ds)));
            EndDateChange pid (formatDate (Some newEndDate)) ]
        else []
    | ResizeStart =>
        if bool_decide (formatDate (Some (visualStartDate ds)) ≠ formatDate (Some (initialStartDate ds)))
        then [ StartDateChange pid (formatDate (Some (visualStartDate ds))) ]
        else []
    | ResizeEnd =>
        if bool_decide (formatDate (Some (visualFinishDate ds)) ≠ formatDate (Some (initialFinishDate ds)))
        then [ EndDateChange pid (formatDate (Some (visualFinishDate ds))) ]
        else []
    end
end.

(** A gesture: the press, the pointer moves (by their day deltas, all
    under the same chart geometry) and the release. *)
Definition dragMoves (width : Z) (range : option (Z * Z)) (dayDeltas : list Z)
    (dragState : option DragState) : option DragState :=
fold_left (λ s d, handleMouseMove width range d s) dayDeltas dragState.

Definition gesture (width : Z) (range : option (Z * Z)) (clientX : Z)
    (p : ProjectSummary) (ty : DragType) (dayDeltas : list Z) : list OverrideEvent :=
handleMouseUp (dragMoves width range dayDeltas (handleMouseDown clientX p ty None)).

End Host.

End Gantt.

(** * Definitions used to state the properties *)

(** ** Ingestion *)

Section IngestionSpec.
Import Csv Normalizer.

(** What one data line contributes, in the words of the specification:
    [i] is the line's 0-based index in the file, so [i + 1] is its 1-based
    line number.  A blank line contributes nothing; a line whose split has
    the wrong width contributes one error and no row; any other line
    contributes one row and no error. *)
Definition lineOutcome (header : list string) (i : nat) (line : string)
  : list (gmap string string) * list CsvError :=
if isBlank line then ([], [])
else if bool_decide (length (splitCsvRow line) = length header)
then ([rowObject header (splitCsvRow line) ∅], [])
else ([], [ {| message := "Row " +:+ pretty (i + 1)%nat +:+ " has incorrect columns (expected "
                 +:+ pretty (length header) +:+ ", found "
                 +:+ pretty (length (splitCsvRow line)) +:+ "). Skipping." |} ]).

(** The lines from index [i] on, paired with their indices. *)
Definition numbered (i : nat) (lines : list string) : list (nat * string) :=
zip (seq i (length lines)) lines.

(** The aliases of canonical field [c] whose source column is non-empty
    in [row], in table order. *)
Definition activeAliases (row : gmap string string) (c : string)
    (table : list (string * string)) : list (string * string) :=
filter (λ e, e.2 = c ∧ truthy (row !! e.1) = true) table.

(** The checks a row has to pass after the alias pass, Store left out. *)
Definition requiredOk (newDate : string → option Z) (row : gmap string string) : bool :=
truthy (row !! "Project") && truthy (row !! "SKU")
&& bool_decide (is_Some (parseInt10 (row !! "Order")))
&& bool_decide (is_Some (parseDate newDate (row !! "DueDate")))
&& bool_decide (is_Some (parseDate newDate (row !! "StartDate")))
&& bool_decide (is_Some (parseFloat (row !! "Estimated Hours"))).

Definition initialState : AppState :=
{| projectTasks := []; error := ""; projectFileName := ""; logs := [] |}.

(** The Project names of the batch an upload would add. *)
Definition incomingNames (newDate : string → option Z) (csvText : string) : list string :=
(λ t, default "" (Project t)) <$> cleanRows newDate (Csv.data (Csv.robustCsvParse csvText)).

(** The Project names of the loaded tasks. *)
Definition loadedNames (st : AppState) : list string :=
omap Project (projectTasks st).

Definition collides (newDate : string → option Z) (csvText : string) (st : AppState)
    (n : string) : Prop :=
n ∈ incomingNames newDate csvText ∧ n ∈ loadedNames st.


Definition csvJob001 : string :=
"Project,Store,SKU,Operation,Order,Estimated Hours,Value,StartDate,DueDate
Job-001,Store-A,SKU1,Paint Prep,1,4.5,100,2025-07-01,2025-07-15".

Definition csvJob001And002 : string :=
"Project,Store,SKU,Operation,Order,Estimated Hours,Value,StartDate,DueDate
Job-002,Store-B,SKU7,Tech,1,2,50,2025-07-02,2025-07-20
Job-001,Store-A,SKU1,Finishing,2,3,75,2025-07-01,2025-07-15".

End IngestionSpec.

(** ** Aggregation *)

Section AggregationSpec.
Import JsDate Aggregation.

Variable newDate : string → option Z.
Variable endDateOverrides : gmap string string.

(** The start, finish and effective due date of a row, when all three
    parse. *)
Definition rowDates (p : ProjectRow) : option (Z * Z * Z) :=
match parseDate newDate (StartDate p),
      parseDate newDate (FinishDate p),
      parseDate newDate (effectiveDueDateStr endDateOverrides p) with
| Some s, Some f, Some d => Some (s, f, d)
| _, _, _ => None
end.

(** One of the three dates the rollup reads does not parse. *)
Definition unparseable (p : ProjectRow) : Prop :=
parseDate newDate (StartDate p) = None
∨ parseDate newDate (FinishDate p) = None
∨ parseDate newDate (effectiveDueDateStr endDateOverrides p) = None.

(** The dates of the projects of [store] that take part in its rollup. *)
Definition storeDates (rows : list ProjectRow) (store : string) : list (Z * Z * Z) :=
omap (λ p, if decide (Store p = store) then rowDates p else None) rows.

(** Minimum start, maximum finish, maximum due date. *)
Definition mergeDates (a b : Z * Z * Z) : Z * Z * Z :=
(Z.min a.1.1 b.1.1, Z.max a.1.2 b.1.2, Z.max a.2 b.2).

Definition rollup (l : list (Z * Z * Z)) : option (Z * Z * Z) :=
foldr (λ x o, Some (from_option (mergeDates x) x o)) None l.

(** The store summary record the specification describes. *)
Definition storeRecord (store : string) (t : Z * Z * Z) : StoreSummary :=
{| sStore := store;
   sStartDate := formatDate (Some t.1.1);
   sFinishDate := formatDate (Some t.1.2);
   sDueDate := formatDate (Some t.2);
   sDaysVariance := roundDiv (t.2 - t.1.2) msPerDay |}.

(** Reading [storeSummaryMap[k]]. *)
Fixpoint lookupAcc (k : string) (m : list (string * StoreAcc)) : option StoreAcc :=
match m with
| [] => None
| (k', a) :: m' => if decide (k' = k) then Some a else lookupAcc k m'
end.

Definition accDates (a : StoreAcc) : Z * Z * Z :=
(accStartDate a, accFinishDate a, accDueDate a).

(** The accumulator has one entry per key, filed under its own store. *)
Definition wfAcc (m : list (string * StoreAcc)) : Prop :=
NoDup m.*1 ∧ Forall (λ e, accStore e.2 = e.1) m.

Definition addDates (t : Z * Z * Z) (o : option (Z * Z * Z)) : option (Z * Z * Z) :=
Some (from_option (λ a, mergeDates a t) t o).

End AggregationSpec.

Section AggregationExamples.
Import JsDate Aggregation.



(** The two projects of the store rollup example. *)
Definition projectX : ProjectRow :=
{| Project := "Project X"; Store := "Store-A"; StartDate := Some "2025-07-01";
   DueDate := Some "2025-07-12"; FinishDate := Some "2025-07-10" |}.

Definition projectY : ProjectRow :=
{| Project := "Project Y"; Store := "Store-A"; StartDate := Some "2025-07-03";
   DueDate := Some "2025-07-15"; FinishDate := Some "2025-07-20" |}.


(** A project running from 2025-07-01 to 2025-07-31. *)
Definition projectJuly : ProjectRow :=
{| Project := "Project J"; Store := "Store-A"; StartDate := Some "2025-07-01";
   DueDate := Some "2025-07-31"; FinishDate := Some "2025-07-31" |}.

End AggregationExamples.

(** ** Timeline *)

Section TimelineSpec.
Import JsDate Aggregation Gantt.

(** The guards of [handleMouseMove] let the move through. *)
Definition moveAllowed (width : Z) (range : option (Z * Z)) : bool :=
match range with
| Some (lo, hi) => negb ((width <=? 0) || (hi - lo <=? 0))
| None => false
end.

Definition withVisual (ds : DragState) (v : Z * Z) : DragState :=
{| type := type ds; project := project ds; startX := startX ds;
   initialStartDate := initialStartDate ds; initialFinishDate := initialFinishDate ds;
   visualStartDate := v.1; visualFinishDate := v.2 |}.

(** The state [handleMouseDown] creates: the visual dates are the initial
    ones. *)
Definition pressed (ds : DragState) : Prop :=
visualStartDate ds = initialStartDate ds ∧ visualFinishDate ds = initialFinishDate ds.




End TimelineSpec.

(** * Further code of the component

    The CSV export, the project list and the project builder, the date
    labels and the late marks of the timeline, the wiring of the timeline
    to the override handlers, the team definitions and the legend of the
    line charts.  Line numbers are those of [src/App.js]. *)

(** [new Set(list)] followed by a spread, for any element type: the
    first occurrences, in order. *)
Fixpoint setOf {A} `{EqDecision A} (seen l : list A) : list A :=
match l with
| [] => []
| x :: l' => if bool_decide (x ∈ seen) then setOf seen l'
             else x :: setOf (x :: seen) l'
end.

(** ** CSV export (lines 316-325) *)

Module CsvExport.
Import Csv.

(** A plain object, its properties in the order [Object.keys] lists
    them; a value is [None] when it is [null] or [undefined], otherwise its
    [String(...)] text. *)
Definition JsObject := list (string * option string).

(** [Object.keys(obj)]. *)
Definition keys (obj : JsObject) : list string := obj.*1.

(** [obj[key]]: [None] also when the property is missing. *)
Fixpoint get (obj : JsObject) (key : string) : option string :=
match obj with
| [] => None
| (k, v) :: obj' => if String.eqb k key then v else get obj' key
end.

(** [value.includes(c)] for a one-character text [c]. *)
Fixpoint includes (c : ascii) (s : string) : bool :=
match s with
| EmptyString => false
| String c' s' => Ascii.eqb c' c || includes c s'
end.

(** The global replace of every quote character by two. *)
Fixpoint doubleQuotes (s : string) : string :=
match s with
| EmptyString => EmptyString
| String c s' =>
    if Ascii.eqb c dquote then String dquote (String dquote (doubleQuotes s'))
    else String c (doubleQuotes s')
end.

(** The text a cell is written as. *)
Definition csvCell (value : string) : string :=
if includes "," value || includes dquote value
then String dquote (doubleQuotes value +:+ String dquote EmptyString)
else value.

Definition csvRow (headers : list string) (obj : JsObject) : string :=
join "," ((λ header, csvCell (default "" (get obj header))) <$> headers).

Definition newline : string := String "010" EmptyString.

(** [simpleCsvUnparse]; a missing [data] is the empty list. *)
Definition simpleCsvUnparse (data : list JsObject) : string :=
match data with
| [] => ""
| first :: _ =>
    let headers := keys first in
    let headerRow := join "," headers in
    let rows := csvRow headers <$> data in
    join newline (headerRow :: rows)
end.

End CsvExport.

(** ** The project list (lines 449-465) *)

Module ProjectList.
Import Normalizer.

(** [{ ...task, Store: newStore }]. *)
Definition withStore (newStore : string) (task : CleanRow) : CleanRow :=
{| fields := fields task; EstimatedHours := EstimatedHours task; Order := Order task;
   DueDate := DueDate task; StartDate := StartDate task; Value := Value task;
   Store := newStore |}.

(** [handleRemoveProject] (lines 449-451). *)
Definition handleRemoveProject (projectName : string) (st : AppState) : AppState :=
setProjectTasks (λ prevTasks, filter (λ task, Project task ≠ Some projectName) prevTasks) st.

(** [handleProjectStoreChange] (lines 453-459). *)
Definition handleProjectStoreChange (projectName newStore : string) (st : AppState)
  : AppState :=
setProjectTasks
  (λ prevTasks,
     (λ task, if decide (Project task = Some projectName)
              then withStore newStore task else task) <$> prevTasks) st.

(** [handleClearAllProjects] (lines 461-465). *)
Definition handleClearAllProjects (st : AppState) : AppState :=
setError "" (setProjectFileName "" (setProjectTasks (λ _, []) st)).

End ProjectList.

(** ** Routing data and the template boxes of the project builder
    (lines 171-175, 297-303, 394-412, 824, 836) *)

Module Builder.
Import Normalizer.

(** What a routing row holds under a column name: nothing, a text, or a
    number (of which only whether it is NaN is kept). *)
Inductive JsValue :=
| VUndefined
| VString (s : string)
| VNumber (isNaN : bool).

(** A routing row after the coercing [map] (lines 298-302): [rfields] is
    the spread [...row], the other components are the three numbers the
    object literal overrides ([None] is NaN). *)
Record RoutingRow := {
  rfields : gmap string string;
  rEstimatedHours : option string;
  rOrder : option Z;
  rValue : string
}.

Definition coerceRoutingRow (row : gmap string string) : RoutingRow :=
{| rfields := row;
   rEstimatedHours := parseFloat (row !! "Estimated Hours");
   rOrder := parseInt10 (row !! "Order");
   rValue := match row !! "Value" with
             | Some v => if floatReadable (removeCommas v) then removeCommas v else "0"
             | None => "0"
             end |}.

(** [row[col]] on a coerced row. *)
Definition column (r : RoutingRow) (col : string) : JsValue :=
if String.eqb col "Estimated Hours" then VNumber (bool_decide (rEstimatedHours r = None))
else if String.eqb col "Order" then VNumber (bool_decide (rOrder r = None))
else if String.eqb col "Value" then VNumber false
else match rfields r !! col with
     | Some s => VString s
     | None => VUndefined
     end.

Definition requiredCols : list string :=
[ "TemplateName"; "SKU"; "SKU Name"; "Operation"; "Order"; "Estimated Hours"; "Value" ].

(** [v !== undefined && v !== null && v !== ''] (strict comparisons). *)
Definition given (v : JsValue) : bool :=
match v with
| VUndefined => false
| VString s => negb (String.eqb s "")
| VNumber _ => true
end.

(** [cleanedRoutingData] (lines 298-303). *)
Definition cleanRoutingData (data : list (gmap string string)) : list RoutingRow :=
filter (λ r, forallb (λ col, given (column r col)) requiredCols = true)
  (coerceRoutingRow <$> data).

(** A template name as the builder handles it ([None] is [undefined]). *)
Definition Template := option string.

Definition TemplateName (r : RoutingRow) : Template := rfields r !! "TemplateName".

(** The comparison of the default [sort()]: [undefined] last, texts by
    code units. *)
Definition defaultCompare (a b : Template) : Z :=
match a, b with
| None, None => 0
| None, Some _ => 1
| Some _, None => -1
| Some x, Some y => RefHost.localeCompare x y
end.

(** [projectTemplates] (lines 171-175). *)
Definition projectTemplates (routingData : list RoutingRow) : list Template :=
sortBy defaultCompare (setOf [] (TemplateName <$> routingData)).

Record BuilderState := {
  selectedTemplates : list Template;
  store : string;
  startDate : string;
  dueDate : string
}.

Definition withSelection (prev : BuilderState) (selection : list Template) : BuilderState :=
{| selectedTemplates := selection; store := store prev;
   startDate := startDate prev; dueDate := dueDate prev |}.

(** [handleTemplateSelectionChange] (lines 394-404). *)
Definition handleTemplateSelectionChange (templateName : Template) (prev : BuilderState)
  : BuilderState :=
let newSelection := setOf [] (selectedTemplates prev) in
withSelection prev
  (if bool_decide (templateName ∈ newSelection)
   then filter (λ t, t ≠ templateName) newSelection
   else newSelection ++ [templateName]).

(** [handleSelectAllTemplates] (lines 406-412), [checked] being the state
    of the box. *)
Definition handleSelectAllTemplates (projectTemplates : list Template) (checked : bool)
    (prev : BuilderState) : BuilderState :=
withSelection prev (if checked then projectTemplates else []).

(** The [checked] attribute of the select-all box (line 823) and of the
    box of one template (line 836). *)
Definition selectAllChecked (projectTemplates : list Template) (b : BuilderState) : bool :=
(0 <? length projectTemplates)%nat
&& (length (selectedTemplates b) =? length projectTemplates)%nat.

Definition templateChecked (template : Template) (b : BuilderState) : bool :=
bool_decide (template ∈ selectedTemplates b).

End Builder.

(** ** Adding projects from the builder (lines 414-447) *)

Module ProjectBuilder.
Import Normalizer Builder.

(** A template name inside a template literal. *)
Definition templateText (template : Template) : string := default "undefined" template.

(** The [do ... while] loop that names the project of one template.
    [draws] holds the values [Math.floor(1000 + Math.random() * 9000)]
    takes, in the order they are made; the result is the name and the
    draws left, or [None] when the draws run out with every name taken. *)
Fixpoint drawName (template : Template) (draws : list Z) (currentProjectNames : list string)
  : option (string * list Z) :=
match draws with
| [] => None
| randomNumber :: draws' =>
    let uniqueName := templateText template +:+ " #" +:+ pretty randomNumber in
    if bool_decide (uniqueName ∈ currentProjectNames)
    then drawName template draws' currentProjectNames
    else Some (uniqueName, draws')
end.

Section Host.

Variable newDate : string → option Z.
Variable localeCompare : string → string → Z.

(** The routing data, once it has been fetched. *)
Variable routingData : list RoutingRow.

(** [tasksForProject]: the routing rows of the template, each with the
    project name, the store and the two dates of the builder. *)
Definition tasksForProject (template : Template) (uniqueName store startDate dueDate : string)
  : list CleanRow :=
(λ taskTemplate,
   {| fields := <["Project" := uniqueName]> (rfields taskTemplate);
      EstimatedHours := rEstimatedHours taskTemplate;
      Order := rOrder taskTemplate;
      DueDate := parseDate newDate (Some dueDate);
      StartDate := parseDate newDate (Some startDate);
      Value := rValue taskTemplate;
      Store := store |})
  <$> filter (λ r, TemplateName r = template) routingData.

(** The [selectedTemplates.forEach] loop. *)
Fixpoint forEachTemplate (store startDate dueDate : string) (templates : list Template)
    (draws : list Z) (currentProjectNames : list string) (newTasks : list CleanRow)
  : option (list CleanRow) :=
match templates with
| [] => Some newTasks
| template :: rest =>
    match drawName template draws currentProjectNames with
    | None => None
    | Some (uniqueName, draws') =>
        forEachTemplate store startDate dueDate rest draws'
          (currentProjectNames ++ [uniqueName])
          (newTasks ++ tasksForProject template uniqueName store startDate dueDate)
    end
end.

(** [handleAddProjectFromBuilder] (lines 414-447): the builder and the
    application state afterwards. *)
Definition handleAddProjectFromBuilder (draws : list Z) (b : BuilderState) (st : AppState)
  : option (BuilderState * AppState) :=
if Nat.eqb (length (selectedTemplates b)) 0 || String.eqb (store b) ""
   || String.eqb (startDate b) "" || String.eqb (dueDate b) ""
then Some (b, setError "Please select at least one game and fill all fields in the Project Builder." st)
else
  match forEachTemplate (store b) (startDate b) (dueDate b) (selectedTemplates b) draws
          (name <$> builtProjects localeCompare (projectTasks st)) [] with
  | None => None
  | Some newTasks =>
      Some (withSelection b [],
            setError "" (setProjectTasks (λ prevTasks, prevTasks ++ newTasks) st))
  end.

End Host.

End ProjectBuilder.

(** ** Date labels, late marks and the override handlers
    (lines 23-28, 341-342, 978-987, 1057-1058, 1355) *)

Module Timeline.
Import JsDate Aggregation Gantt.

(** An argument of the date formatters: [null] or [undefined], a [Date]
    ([None] when it is invalid) or a text. *)
Inductive DateArg :=
| ArgNull
| ArgDate (t : option Z)
| ArgText (s : string).




Section Host.

Variable tz : Z.
Variable newDate : string → option Z.
Variable endDateOverrides : gmap string string.

(** [formatDateForGantt] (lines 23-28): month and day of the local date. *)
Definition formatDateForGantt (dateStr : DateArg) : string :=
let label (d : Z) :=
  let '(_, month, day) := civil_from_days (utcDay (localTime tz d)) in
  pretty month +:+ "/" +:+ pretty day in
match dateStr with
| ArgNull => ""
| ArgDate (Some d) => label d
| ArgDate None => "NaN/NaN"
| ArgText s =>
    match parseDate newDate (Some s) with
    | Some d => label d
    | None => ""
    end
end.


End Host.


End Timeline.

(** ** Team definitions and their merge on loading a configuration
    (second version of the component, lines 1756-1792 and 2494-2552) *)

Module TeamConfig.

Definition TEAM_SORT_ORDER : list string :=
[ "Receiving"; "CNC"; "Metal"; "Scenic"; "Paint"; "Carpentry"; "Assembly"; "Tech"; "QC";
  "Hybrid" ].

(** [order.indexOf(x)], counted from [i]. *)
Fixpoint indexOf (x : string) (order : list string) (i : Z) : Z :=
match order with
| [] => -1
| y :: order' => if String.eqb y x then i else indexOf x order' (i + 1)
end.

(** The comparator of the team sorts: position in [order], unknown names
    last. *)
Definition compareTeams (order : list string) (a b : string) : Z :=
let indexA := indexOf a order 0 in
let indexB := indexOf b order 0 in
if indexA =? -1 then 1
else if indexB =? -1 then -1
else indexA - indexB.

(** A configuration is taken to have the shape the component saves: a
    headcount is an id, a name and a count, a mapping an id, a team and an
    operation, the numbers being integers. *)
Record Headcount := { id : Z; name : string; count : Z }.

Record Mapping := { mid : Z; team : string; operation : string }.

Record TeamDefs := { headcounts : list Headcount; mapping : list Mapping }.

Definition createDefaultTeamDefs : TeamDefs :=
{| headcounts :=
     sortBy (λ a b, compareTeams TEAM_SORT_ORDER (name a) (name b))
       [ {| id := 1; name := "Paint"; count := 9 |}; {| id := 2; name := "Scenic"; count := 4 |};
         {| id := 3; name := "CNC"; count := 3 |}; {| id := 4; name := "Metal"; count := 1 |};
         {| id := 5; name := "Carpentry"; count := 9 |};
         {| id := 6; name := "Assembly"; count := 4 |};
         {| id := 7; name := "Tech"; count := 4 |}; {| id := 8; name := "Receiving"; count := 2 |};
         {| id := 9; name := "QC"; count := 2 |} ];
   mapping :=
     [ {| mid := 1; team := "Paint"; operation := "Scenic Paint" |};
       {| mid := 2; team := "Paint"; operation := "Paint Prep" |};
       {| mid := 3; team := "Paint"; operation := "Finishing" |};
       {| mid := 4; team := "Scenic"; operation := "Scenic Fabrication" |};
       {| mid := 5; team := "CNC"; operation := "CNC Operation" |};
       {| mid := 6; team := "Metal"; operation := "Metal Fabrication" |};
       {| mid := 7; team := "Carpentry"; operation := "Carpentry/Woodwork" |};
       {| mid := 8; team := "Assembly"; operation := "Final Assembly" |};
       {| mid := 9; team := "Tech"; operation := "Tech" |};
       {| mid := 10; team := "Tech"; operation := "Tech Prep" |};
       {| mid := 11; team := "Receiving"; operation := "Receiving" |};
       {| mid := 12; team := "QC"; operation := "Quality Review / Testing" |} ] |}.

(** The key of a mapping: team, a dash, operation. *)
Definition mappingKey (m : Mapping) : string := team m +:+ "-" +:+ operation m.

(** [mergedMappings.forEach((m, idx) => { m.id = idx + 1; })], from
    index [idx] on. *)
Fixpoint reassignIds (idx : Z) (mappings : list Mapping) : list Mapping :=
match mappings with
| [] => []
| m :: mappings' =>
    {| mid := idx + 1; team := team m; operation := operation m |}
      :: reassignIds (idx + 1) mappings'
end.

(** The team definitions [handleLoadConfig] sets from the loaded ones. *)
Definition mergeTeamDefs (loaded : TeamDefs) : TeamDefs :=
let defaultTeamDefs := createDefaultTeamDefs in
let loadedHeadcountNames := name <$> headcounts loaded in
let mergedHeadcounts :=
  headcounts loaded
    ++ filter (λ h, name h ∉ loadedHeadcountNames) (headcounts defaultTeamDefs) in
let loadedMappingKeys := mappingKey <$> mapping loaded in
let mergedMappings :=
  mapping loaded
    ++ filter (λ m, mappingKey m ∉ loadedMappingKeys) (mapping defaultTeamDefs) in
{| headcounts := mergedHeadcounts; mapping := reassignIds 0 mergedMappings |}.

End TeamConfig.

(** ** Line charts: legend order and week labels (lines 1417-1476, 1505-1511) *)

Module Charts.
Import TeamConfig.

Definition TEAM_COLORS : list string :=
[ "#3b82f6"; "#000000"; "#f97316"; "#8b5cf6"; "#10b981"; "#ef4444"; "#f59e0b"; "#826c60";
  "#6366f1"; "#d946ef"; "#8b4513" ].

(** [uniqueTeams]: the distinct team names in the order of [order] (the
    file's [TEAM_SORT_ORDER]), each with the colour of its position.
    [teams] holds the names [t.name] of the component's teams. *)
Definition uniqueTeams (order : list string) (teams : list string) : list (string * string) :=
let teamSet := setOf [] teams in
let sorted := sortBy (compareTeams order) teamSet in
imap (λ i name, (name, default "" (TEAM_COLORS !! (i mod length TEAM_COLORS)%nat))) sorted.

(** Whether week [i] of [n] gets a label under the axis:
    [data.length < 10 || i % Math.ceil(data.length / 8) === 0]. *)
Definition weekLabelShown (n i : nat) : bool :=
(n <? 10)%nat || (i mod ((n + 7) / 8) =? 0)%nat.

End Charts.

(** ** Notions used to state the properties of this code *)

Section ExportSpec.
Import CsvExport.

(** A text without the character [c]. *)
Definition without (c : ascii) (s : string) : Prop := includes c s = false.

(** The row [robustCsvParse] builds for an object written under [headers]. *)
Definition readBack (headers : list string) (obj : JsObject) : gmap string string :=
list_to_map ((λ header, (header, default "" (get obj header))) <$> headers).

End ExportSpec.

Section OrderSpec.

(** Every element stands in relation [R] to all the elements after it. *)
Fixpoint ordered {A} (R : A → A → Prop) (l : list A) : Prop :=
match l with
| [] => True
| x :: l' => Forall (R x) l' ∧ ordered R l'
end.

(** A consistent comparator, as [Array.prototype.sort] asks for. *)
Definition consistent {A} (cmp : A → A → Z) : Prop :=
(∀ a b, Z.sgn (cmp b a) = - Z.sgn (cmp a b))
∧ (∀ a b c, cmp a b ≤ 0 → cmp b c ≤ 0 → cmp a c ≤ 0).

End OrderSpec.

Section BuilderSpec.
Import Builder.

(** What the user does to the template boxes. *)
Inductive SelectionAction :=
| Toggle (template : Template)
| SelectAll (checked : bool).

Definition act (projectTemplates : list Template) (b : BuilderState) (a : SelectionAction)
  : BuilderState :=
match a with
| Toggle template => handleTemplateSelectionChange template b
| SelectAll checked => handleSelectAllTemplates projectTemplates checked b
end.

(** The action is on a box the builder shows. *)
Definition shown (projectTemplates : list Template) (a : SelectionAction) : Prop :=
match a with
| Toggle template => template ∈ projectTemplates
| SelectAll _ => True
end.

End BuilderSpec.

Section DropSpec.
Import JsDate.


End DropSpec.

Section ExportExamples.
Import JsDate Csv Normalizer CsvExport.

(** Two tasks as the project download writes them: a name with a comma,
    a note with a quote character, and a value that is [null]. *)
Definition exportedTasks : list JsObject :=
[ [ ("Project", Some "Job-1"); ("SKU Name", Some "Bolt, steel");
    ("Note", Some ("3/4" +:+ String dquote " thread")); ("Store", None) ];
  [ ("Project", Some "Job-2"); ("SKU Name", Some "Panel"); ("Store", Some "Store-B") ] ].

Definition exportedHeaders : list string := [ "Project"; "SKU Name"; "Note"; "Store" ].

End ExportExamples.

Section BuilderExamples.
Import JsDate Aggregation Gantt Builder.

(** Two hours east of UTC. *)
Definition tzEast : Z := 7200000.


(** Routing rows of two templates. *)
Definition routingExample : list RoutingRow :=
cleanRoutingData
  [ {[ "TemplateName" := "Maze"; "SKU" := "M-1"; "SKU Name" := "Maze wall";
       "Operation" := "CNC Operation"; "Order" := "1"; "Estimated Hours" := "2.5";
       "Value" := "1,200" ]};
    {[ "TemplateName" := "Arcade"; "SKU" := "A-1"; "SKU Name" := "Cabinet";
       "Operation" := "Final Assembly"; "Order" := "1"; "Estimated Hours" := "4";
       "Value" := "300" ]};
    {[ "TemplateName" := "Maze"; "SKU" := "M-2"; "SKU Name" := "Maze floor";
       "Operation" := "Scenic Paint"; "Order" := "2"; "Estimated Hours" := "3";
       "Value" := "150" ]} ].

Definition emptyBuilder : BuilderState :=
{| selectedTemplates := []; store := ""; startDate := ""; dueDate := "" |}.

End BuilderExamples.

(** * Properties *)

(** ** Calendar and date formatting *)

Section DateFacts.
Import JsDate.

Lemma civil_roundtrip z :
  let '(y, m, d) := civil_from_days z in
  days_from_civil y m d = z ∧ 1 ≤ m ≤ 12 ∧ 1 ≤ d ≤ 31.
Proof.
  unfold civil_from_days, days_from_civil. cbv zeta.
  repeat match goal with
         | |- context [if ?b then _ else _] => destruct b eqn:?
         end;
  Z.div_mod_to_equations; lia.
Qed.

Lemma civil_from_days_inj a b : civil_from_days a = civil_from_days b → a = b.
Proof.
  intros E. pose proof (civil_roundtrip a) as Ha. pose proof (civil_roundtrip b) as Hb.
  rewrite E in Ha. destruct (civil_from_days b) as [[y m] d].
  destruct Ha as [<- _], Hb as [<- _]. reflexivity.
Qed.

Lemma digits_length w n : length (digits w n) = w.
Proof.
  revert n. induction w as [|w IH]; intros n; simpl; [done|].
  rewrite length_app, IH. simpl. lia.
Qed.

Lemma digitChar_code n : nat_of_ascii (digitChar n) = (48 + Z.to_nat (n mod 10))%nat.
Proof.
  unfold digitChar. apply nat_ascii_embedding.
  pose proof (Z.mod_pos_bound n 10). lia.
Qed.

Lemma digitChar_inj a b : digitChar a = digitChar b → a mod 10 = b mod 10.
Proof.
  intros E. apply (f_equal nat_of_ascii) in E. rewrite !digitChar_code in E.
  pose proof (Z.mod_pos_bound a 10). pose proof (Z.mod_pos_bound b 10). lia.
Qed.

Lemma digits_inj w a b :
  digits w a = digits w b → a mod 10 ^ Z.of_nat w = b mod 10 ^ Z.of_nat w.
Proof.
  revert a b. induction w as [|w IH]; intros a b E.
  - simpl. rewrite !Z.mod_1_r. reflexivity.
  - simpl in E. apply app_inj_2 in E as [E1 E2]; [|done].
    apply IH in E1. injection E2 as E2. apply digitChar_inj in E2.
    rewrite Nat2Z.inj_succ, Z.pow_succ_r by lia.
    rewrite !Z.rem_mul_r by lia. lia.
Qed.

Lemma digits_head w n : ∃ l, digits (S w) n = digitChar (n / 10 ^ Z.of_nat w) :: l.
Proof.
  revert n. induction w as [|w IH]; intros n.
  - exists []. simpl. rewrite Z.div_1_r. reflexivity.
  - destruct (IH (n / 10)) as [l Hl]. exists (l ++ [digitChar n]).
    change (digits (S (S w)) n) with (digits (S w) (n / 10) ++ [digitChar n]).
    rewrite Hl. simpl. f_equal. f_equal.
    rewrite Nat2Z.inj_succ, Z.pow_succ_r by lia.
    rewrite Z.div_div by lia. reflexivity.
Qed.

Lemma digitChar_not_sign n : digitChar n ≠ "-"%char ∧ digitChar n ≠ "+"%char.
Proof.
  split; intros E; apply (f_equal nat_of_ascii) in E;
    rewrite digitChar_code in E.
  - change (nat_of_ascii "-") with 45%nat in E. lia.
  - change (nat_of_ascii "+") with 43%nat in E. lia.
Qed.

Lemma pretty_N_go_length x s : (String.length s ≤ String.length (pretty_N_go x s))%nat.
Proof.
  revert s. induction (N.lt_wf_0 x) as [x _ IH]; intros s.
  assert (x = 0 ∨ 0 < x)%N as [->|?] by lia; [by rewrite pretty_N_go_0|].
  rewrite pretty_N_go_step by done.
  etrans; [|by eapply IH, N.div_lt]. simpl. lia.
Qed.

Lemma pretty_pos_nonempty (k : Z) : 0 < k → list_ascii_of_string (pretty k) ≠ [].
Proof.
  intros Hk. destruct k as [|p|p]; try lia.
  unfold pretty, pretty_Z, pretty, pretty_positive, pretty, pretty_N.
  case_decide; [done|].
  rewrite pretty_N_go_step by lia.
  pose proof (pretty_N_go_length (N.pos p `div` 10)
                (String (pretty_N_char (N.pos p `mod` 10)) "")) as Hlen.
  destruct (pretty_N_go _ _); simpl in *; [lia|done].
Qed.

Lemma list_ascii_of_string_inj s1 s2 :
  list_ascii_of_string s1 = list_ascii_of_string s2 → s1 = s2.
Proof.
  intros E. apply (f_equal string_of_list_ascii) in E.
  by rewrite !string_of_list_ascii_of_string in E.
Qed.

Local Opaque digits.

Lemma isoYear_inj y1 y2 : isoYear y1 = isoYear y2 → y1 = y2.
Proof.
  unfold isoYear.
  destruct ((0 <=? y1) && (y1 <=? 9999)) eqn:R1, ((0 <=? y2) && (y2 <=? 9999)) eqn:R2.
  - intros E. apply (digits_inj 4) in E. change (10 ^ Z.of_nat 4) with 10000 in E.
    rewrite !Z.mod_small in E by lia. done.
  - destruct (digits_head 3 y1) as [l ->]. intros [= E _].
    destruct (digitChar_not_sign (y1 / 10 ^ Z.of_nat 3)). by destruct (y2 <? 0).
  - destruct (digits_head 3 y2) as [l ->]. intros [= E _].
    destruct (digitChar_not_sign (y2 / 10 ^ Z.of_nat 3)). by destruct (y1 <? 0).
  - intros [= Hs E].
    apply app_inj_2 in E as [Ehi Elo];
      [|exact (eq_trans (digits_length 6 _) (eq_sym (digits_length 6 _)))].
    apply (digits_inj 6) in Elo. change (10 ^ Z.of_nat 6) with 1000000 in Elo.
    assert (Z.abs y1 = Z.abs y2) as Habs.
    { destruct (Z.abs y1 <? 1000000) eqn:B1, (Z.abs y2 <? 1000000) eqn:B2.
      - rewrite !Z.mod_small in Elo by lia. done.
      - symmetry in Ehi. apply pretty_pos_nonempty in Ehi; [done|].
        apply Z.div_str_pos. lia.
      - apply pretty_pos_nonempty in Ehi; [done|]. apply Z.div_str_pos. lia.
      - apply list_ascii_of_string_inj in Ehi. apply (inj pretty) in Ehi.
        rewrite (Z.div_mod (Z.abs y1) 1000000), (Z.div_mod (Z.abs y2) 1000000) by lia.
        lia. }
    destruct (y1 <? 0) eqn:S1, (y2 <? 0) eqn:S2; try done; lia.
Qed.

Lemma isoDate_inj a b : isoDate a = isoDate b → a = b.
Proof.
  unfold isoDate. intros E. apply civil_from_days_inj.
  pose proof (civil_roundtrip a) as Ha. pose proof (civil_roundtrip b) as Hb.
  destruct (civil_from_days a) as [[y1 m1] d1], (civil_from_days b) as [[y2 m2] d2].
  apply (f_equal list_ascii_of_string) in E.
  rewrite !list_ascii_of_string_of_list_ascii in E.
  assert (∀ m d, length ("-"%char :: digits 2 m ++ "-"%char :: digits 2 d) = 6%nat) as Hlen.
  { intros m d. cbn [length]. rewrite length_app. cbn [length].
    rewrite !digits_length. reflexivity. }
  pose proof (app_inj_2 _ _ _ _ (eq_trans (Hlen m1 d1) (eq_sym (Hlen m2 d2))) E) as [Ey Et].
  apply (f_equal (drop 1)) in Et. cbn [drop] in Et.
  pose proof (app_inj_1 _ _ _ _
    (eq_trans (digits_length 2 m1) (eq_sym (digits_length 2 m2))) Et) as [Em Ed].
  apply (f_equal (drop 1)) in Ed. cbn [drop] in Ed.
  apply isoYear_inj in Ey. apply (digits_inj 2) in Em, Ed.
  change (10 ^ Z.of_nat 2) with 100 in Em, Ed.
  rewrite !Z.mod_small in Em, Ed by lia. congruence.
Qed.

Local Transparent digits.


Lemma addDays_fixed tz t n : addDays tz t n = t + n * msPerDay.
Proof. unfold addDays, utc, localTime. lia. Qed.


End DateFacts.

Example iso_date_sample : JsDate.isoDate 20270 = "2025-07-01".
Proof. vm_compute. reflexivity. Qed.

Example parse_date_sample :
  parseDate (RefHost.newDate 0) (Some "2025-07-01") = Some (20270 * JsDate.msPerDay)
  ∧ parseDate (RefHost.newDate 0) (Some "2025/7/1") = Some (20270 * JsDate.msPerDay)
  ∧ parseDate (RefHost.newDate 0) (Some "2025-07-01 12:00")
    = Some (20270 * JsDate.msPerDay + 43200000)
  ∧ parseDate (RefHost.newDate 0) (Some "July 1") = None
  ∧ parseDate (RefHost.newDate 0) None = None.
Proof. vm_compute. repeat split; reflexivity. Qed.

(** ** Strings, sorting and sets *)

Section SortFacts.
Context {A : Type} (cmp : A → A → Z).

Lemma sortInsert_perm x l : sortInsert cmp x l ≡ₚ x :: l.
Proof.
  induction l as [|y l IH]; cbn [sortInsert]; [done|].
  destruct (cmp x y <=? 0); [done|]. rewrite IH. apply Permutation_swap.
Qed.

Lemma sortBy_perm l : sortBy cmp l ≡ₚ l.
Proof.
  unfold sortBy. induction l as [|x l IH]; cbn [foldr]; [done|].
  rewrite sortInsert_perm. by rewrite IH.
Qed.

Lemma sortBy_elem x l : x ∈ sortBy cmp l ↔ x ∈ l.
Proof. by rewrite sortBy_perm. Qed.

End SortFacts.

Section StringFacts.

Lemma append_cons c s t : String c s +:+ t = String c (s +:+ t).
Proof. reflexivity. Qed.

Lemma append_nil_r s : s +:+ "" = s.
Proof. induction s as [|c s IH]; [done|]. by rewrite append_cons, IH. Qed.

Lemma append_assoc s1 s2 s3 : (s1 +:+ s2) +:+ s3 = s1 +:+ s2 +:+ s3.
Proof. induction s1 as [|c s1 IH]; [done|]. by rewrite !append_cons, IH. Qed.

End StringFacts.

(** ** Tabular ingestion *)

Section SplitFacts.
Import Csv.

Lemma scanQuoted_rest_fuel n : ∀ s,
  (String.length s ≤ n)%nat → (String.length (scanQuoted s).2 ≤ String.length s)%nat.
Proof.
  induction n as [|n IH]; intros s Hn.
  - destruct s; [done|cbn in Hn; lia].
  - destruct s as [|c t]; [done|]. cbn [scanQuoted]. cbn in Hn.
    destruct (Ascii.eqb c dquote).
    + destruct t as [|c' t']; [cbn; lia|]. cbn in Hn.
      destruct (Ascii.eqb c' dquote); [|cbn; lia].
      assert (String.length (scanQuoted t').2 ≤ String.length t')%nat by (apply IH; lia).
      destruct (scanQuoted t'). cbn in *. lia.
    + assert (String.length (scanQuoted t).2 ≤ String.length t)%nat by (apply IH; lia).
      destruct (scanQuoted t). cbn in *. lia.
Qed.

Lemma scanQuoted_rest s : (String.length (scanQuoted s).2 ≤ String.length s)%nat.
Proof. by apply (scanQuoted_rest_fuel (String.length s)). Qed.

Lemma scanPlain_rest s : (String.length (scanPlain s).2 ≤ String.length s)%nat.
Proof.
  induction s as [|c t IH]; [done|]. cbn [scanPlain].
  destruct (Ascii.eqb c ","); [done|].
  destruct (scanPlain t). cbn in *. lia.
Qed.

Lemma skipComma_length s : (String.length (skipComma s) ≤ String.length s)%nat.
Proof. destruct s as [|c t]; [done|]. cbn. destruct (Ascii.eqb c ","); cbn; lia. Qed.

(** Every round of the outer loop of [splitCsvRow] consumes a character. *)
Lemma splitLoop_progress c t :
  (String.length (skipComma (if Ascii.eqb c dquote then scanQuoted t
                             else scanPlain (String c t)).2) ≤ String.length t)%nat.
Proof.
  destruct (Ascii.eqb c dquote).
  - etrans; [apply skipComma_length|apply scanQuoted_rest].
  - cbn [scanPlain]. destruct (Ascii.eqb c ",") eqn:E.
    + cbn [snd skipComma]. by rewrite E.
    + pose proof (scanPlain_rest t). destruct (scanPlain t) as [f r]. cbn [snd] in *.
      etrans; [apply skipComma_length|done].
Qed.

(** The length of the row is enough fuel: more fuel gives the same fields. *)
Lemma splitLoop_fuel n : ∀ m s,
  (String.length s ≤ n)%nat → (String.length s ≤ m)%nat → splitLoop n s = splitLoop m s.
Proof.
  induction n as [|n IH]; intros m s Hn Hm.
  - destruct s; [|cbn in Hn; lia]. by destruct m.
  - destruct s as [|c t]; [by destruct m|]. destruct m as [|m]; [cbn in Hm; lia|].
    cbn [splitLoop]. pose proof (splitLoop_progress c t) as Hp.
    destruct (if Ascii.eqb c dquote then scanQuoted t else scanPlain (String c t)) as [f r].
    cbn [snd] in Hp. f_equal. apply IH; cbn in Hn, Hm; lia.
Qed.

End SplitFacts.

Example csv_quoted_field :
  let q := String Csv.dquote EmptyString in
  Csv.splitCsvRow ("a," +:+ q +:+ "b " +:+ q +:+ q +:+ "c" +:+ q +:+ q +:+ ", d" +:+ q +:+ ",e,")
  = ["a"; "b " +:+ q +:+ "c" +:+ q +:+ ", d"; "e"; ""].
Proof. vm_compute. reflexivity. Qed.

Section CsvFacts.
Import Csv.

Lemma parseLines_outcomes header lines : ∀ i acc,
  parseLines header i lines acc =
  {| data := data acc ++ concat ((λ il, (lineOutcome header il.1 il.2).1) <$> numbered i lines);
     errors := errors acc ++ concat ((λ il, (lineOutcome header il.1 il.2).2) <$> numbered i lines) |}.
Proof.
  induction lines as [|line rest IH]; intros i acc.
  - simpl. rewrite !app_nil_r. by destruct acc.
  - cbn [parseLines]. unfold numbered. cbn [length seq zip zip_with fmap list_fmap concat].
    fold (numbered (S i) rest). unfold lineOutcome at 1 3. cbn [fst snd].
    destruct (isBlank line).
    + rewrite IH. reflexivity.
    + destruct (Nat.eqb_spec (length (splitCsvRow line)) (length header)) as [E|E].
      * rewrite bool_decide_eq_true_2 by done. cbn [negb fst snd].
        rewrite IH. cbn [data errors]. by rewrite <-!app_assoc.
      * rewrite bool_decide_eq_false_2 by done. cbn [negb fst snd].
        rewrite IH. cbn [data errors]. by rewrite <-!app_assoc.
Qed.

(** C6, as amended.  For a CSV text whose first line is the header and
    which has at least one further line, the rows and the errors of
    [robustCsvParse] are the concatenation, in file order, of what each
    later line contributes by itself: a line that is not blank and whose
    split has not exactly the header's width gives exactly one error, whose
    message names the 1-based line number, and no row; a line that is not
    blank and has the right width gives exactly one row and no error; a
    blank line gives neither.  No line stops the lines after it from being
    processed. *)
Theorem C6_row_count_invariant (csvText headerLine : string) (dataLines : list string) :
  csvLines csvText = headerLine :: dataLines →
  dataLines ≠ [] →
  let header := trim <$> splitCsvRow headerLine in
  data (robustCsvParse csvText)
    = concat ((λ il, (lineOutcome header il.1 il.2).1) <$> numbered 1 dataLines)
  ∧ errors (robustCsvParse csvText)
    = concat ((λ il, (lineOutcome header il.1 il.2).2) <$> numbered 1 dataLines)
  ∧ ∀ i line, (i, line) ∈ numbered 1 dataLines →
      (isBlank line = true → lineOutcome header i line = ([], []))
      ∧ (isBlank line = false → length (splitCsvRow line) ≠ length header →
           ∃ e, lineOutcome header i line = ([], [e])
                ∧ ∃ rest, message e = "Row " +:+ pretty (i + 1)%nat +:+ rest)
      ∧ (isBlank line = false → length (splitCsvRow line) = length header →
           lineOutcome header i line = ([rowObject header (splitCsvRow line) ∅], [])).
Proof.
  intros Hlines Hne header. unfold robustCsvParse. rewrite Hlines.
  destruct dataLines as [|l ls]; [done|].
  rewrite parseLines_outcomes. cbn [data errors app]. fold header.
  split; [done|]. split; [done|].
  intros i line _. unfold lineOutcome. split; [by intros ->|]. split; intros -> Hw.
  - rewrite bool_decide_eq_false_2 by done. eexists. split; [reflexivity|].
    cbn [message]. eexists. reflexivity.
  - rewrite bool_decide_eq_true_2 by done. reflexivity.
Qed.

Lemma C6_witness :
  let csvText := "x,y
1,2
3

4,5,6
7,8" in
  data (robustCsvParse csvText)
    = [ {[ "x" := "1"; "y" := "2" ]}; {[ "x" := "7"; "y" := "8" ]} ]
  ∧ (message <$> errors (robustCsvParse csvText))
    = [ "Row 3 has incorrect columns (expected 2, found 1). Skipping.";
        "Row 5 has incorrect columns (expected 2, found 3). Skipping." ].
Proof.
  intros csvText.
  destruct (C6_row_count_invariant csvText "x,y" ["1,2"; "3"; ""; "4,5,6"; "7,8"])
    as (Hd & He & _).
  - vm_compute. reflexivity.
  - discriminate.
  - rewrite Hd, He. split.
    + vm_compute. reflexivity.
    + vm_compute. reflexivity.
Defined.

(** C6, as stated, fails for blank lines: the third line of this text is
    a data line whose split has no field at all, not the two of the header,
    yet it is passed over without an error. *)
Lemma C6_counterexample :
  let csvText := "x,y
1,2

3,4" in
  csvLines csvText = ["x,y"; "1,2"; ""; "3,4"]
  ∧ splitCsvRow "" = []
  ∧ errors (robustCsvParse csvText) = []
  ∧ data (robustCsvParse csvText)
    = [ {[ "x" := "1"; "y" := "2" ]}; {[ "x" := "3"; "y" := "4" ]} ].
Proof. vm_compute. repeat split; reflexivity. Qed.

End CsvFacts.

(** ** Schema normaliser *)

Section NormalizerFacts.
Import Normalizer.

Lemma renameStep_lookup row newRow e c :
  renameStep row newRow e !! c =
  if bool_decide (e.2 = c ∧ truthy (row !! e.1) = true) then row !! e.1 else newRow !! c.
Proof.
  unfold renameStep. case_bool_decide as H.
  - destruct H as [<- T]. rewrite T, lookup_insert_eq.
    destruct (row !! e.1); [done|discriminate].
  - destruct (truthy (row !! e.1)) eqn:T; [|done].
    rewrite lookup_insert_ne; [done|]. intros ?. by apply H.
Qed.

Lemma rename_fold_lookup row c table : ∀ newRow,
  fold_left (renameStep row) table newRow !! c =
  match last (activeAliases row c table) with
  | Some e => row !! e.1
  | None => newRow !! c
  end.
Proof.
  induction table as [|e table IH]; intros newRow; [done|].
  cbn [fold_left]. rewrite IH. unfold activeAliases. rewrite filter_cons.
  fold (activeAliases row c table). rewrite renameStep_lookup.
  case_bool_decide as H.
  - case_decide; [|done].
    destruct (activeAliases row c table) as [|e' l] eqn:E; [reflexivity|].
    rewrite (last_cons e). by destruct (last (e' :: l)).
  - case_decide; done.
Qed.

(** C8, as amended.  After the alias pass, a field holds the value of the
    last alias of the table, in table order, that maps to that field and
    whose source column is present and non-empty in the row; a field with
    no such alias keeps the row's own value.  A later alias therefore does
    overwrite the value set by an earlier one. *)
Theorem C8_last_alias_wins (row : gmap string string) (c : string) :
  renameRow row !! c =
  match last (activeAliases row c renamedCols) with
  | Some e => row !! e.1
  | None => row !! c
  end.
Proof. unfold renameRow. apply rename_fold_lookup. Qed.

(** C8, as stated, fails: with both source columns present, the value the
    earlier alias (Expected Hours) set is replaced by the later one's
    (Labor Time). *)
Lemma C8_counterexample :
  let row : gmap string string := {[ "Expected Hours" := "5"; "Labor Time" := "7" ]} in
  fold_left (renameStep row) (take 3 renamedCols) row !! "Estimated Hours" = Some "5"
  ∧ renameRow row !! "Estimated Hours" = Some "7".
Proof. vm_compute. split; reflexivity. Qed.

Lemma coerceRow_store newDate row :
  Store (coerceRow newDate row)
  = if truthy (row !! "Store") then default "" (row !! "Store") else "N/A".
Proof.
  unfold coerceRow, jsOr. cbn [Store].
  destruct (row !! "Store") as [s|]; cbn [truthy]; [|reflexivity].
  destruct (String.eqb s ""); reflexivity.
Qed.

Lemma keepRow_coerce newDate row :
  keepRow (coerceRow newDate row) = requiredOk newDate row.
Proof.
  unfold keepRow, requiredOk. rewrite coerceRow_store.
  assert (negb (String.eqb (if truthy (row !! "Store") then default "" (row !! "Store")
                            else "N/A") "") = true) as ->.
  { destruct (row !! "Store") as [s|]; simpl; [|reflexivity].
    destruct (String.eqb s "") eqn:E'; simpl; [reflexivity|].
    by rewrite E'. }
  unfold Project, SKU. cbn [fields coerceRow Order DueDate StartDate EstimatedHours].
  by rewrite andb_true_r.
Qed.

Lemma cleanRows_filter newDate data :
  cleanRows newDate data
  = (λ row, coerceRow newDate (renameRow row))
      <$> filter (λ row, requiredOk newDate (renameRow row) = true) data.
Proof.
  unfold cleanRows. induction data as [|row data IH]; [done|].
  cbn [fmap list_fmap]. rewrite !filter_cons, keepRow_coerce.
  case_decide.
  - cbn [fmap list_fmap]. f_equal. exact IH.
  - exact IH.
Qed.

(** C7, as amended.  The clean step keeps, in order, exactly the rows
    that after the alias pass have a non-empty Project and SKU, an Order
    that [parseInt] reads, Estimated Hours that [parseFloat] reads, and a
    StartDate and a DueDate that parse; a row without a Store is kept and
    given the Store N/A.  The result is null exactly when the input was
    non-empty and no row was kept, and is the list of kept rows otherwise. *)
Theorem C7_clean_step (newDate : string → option Z) (data : list (gmap string string))
    (st : AppState) :
  cleanRows newDate data
    = (λ row, coerceRow newDate (renameRow row))
        <$> filter (λ row, requiredOk newDate (renameRow row) = true) data
  ∧ (∀ row, truthy (row !! "Store") = false → Store (coerceRow newDate row) = "N/A")
  ∧ ((loadAndCleanData newDate data st).1 = None ↔ data ≠ [] ∧ cleanRows newDate data = [])
  ∧ ((loadAndCleanData newDate data st).1 ≠ None →
       (loadAndCleanData newDate data st).1 = Some (cleanRows newDate data)).
Proof.
  split; [apply cleanRows_filter|]. split.
  { intros row H. by rewrite coerceRow_store, H. }
  unfold loadAndCleanData. destruct data as [|row data]; [by split; [split; [done|intros [? _]]|]|].
  destruct (cleanRows newDate (row :: data)) as [|r rs] eqn:E; cbn [fst].
  - split; [by split|done].
  - split; [split; [done|by intros [_ ?]]|done].
Qed.

(** C7, as stated, fails for Store: a row with every required field but no
    Store is not filtered out; it survives with the Store N/A. *)
Lemma C7_counterexample :
  let row : gmap string string :=
    {[ "Project" := "P1"; "SKU" := "S1"; "Order" := "1"; "Estimated Hours" := "2.5";
       "StartDate" := "2025-07-01"; "DueDate" := "2025-07-10" ]} in
  row !! "Store" = None
  ∧ (loadAndCleanData (RefHost.newDate 0) [row] initialState).1
    = Some [coerceRow (RefHost.newDate 0) row]
  ∧ Store (coerceRow (RefHost.newDate 0) row) = "N/A".
Proof. vm_compute. repeat split; reflexivity. Qed.

End NormalizerFacts.

(** ** Duplicate rejection on upload *)

Section UploadFacts.
Import Normalizer.

Variable newDate : string → option Z.
Variable localeCompare : string → string → Z.

Lemma setOfList_elem x l : ∀ seen, x ∈ setOfList seen l ↔ x ∈ l ∧ x ∉ seen.
Proof.
  induction l as [|y l IH]; intros seen; cbn [setOfList].
  - split; [by intros ?%elem_of_nil|by intros [?%elem_of_nil _]].
  - case_bool_decide as Hy.
    + rewrite IH, elem_of_cons. split; [tauto|].
      intros [[->|?] ?]; tauto.
    + rewrite !elem_of_cons, IH, elem_of_cons.
      destruct (decide (x = y)) as [->|]; [tauto|]. split; [tauto|].
      intros [[?|?] ?]; [done|]. right. split; [done|]. intros [?|?]; done.
Qed.

Lemma join_cons sep x y l : join sep (x :: y :: l) = x +:+ sep +:+ join sep (y :: l).
Proof. reflexivity. Qed.


Lemma builtProjectsAcc_names tasks : ∀ acc n,
  n ∈ name <$> builtProjectsAcc acc tasks
  ↔ n ∈ name <$> acc ∨ (n ≠ "" ∧ ∃ t, t ∈ tasks ∧ Project t = Some n).
Proof.
  induction tasks as [|t tasks IH]; intros acc n; cbn [builtProjectsAcc].
  - split; [by left|]. intros [?|(_ & t & ?%elem_of_nil & _)]; done.
  - destruct (truthy (Project t) && negb (bool_decide (default "" (Project t) ∈ name <$> acc)))
      eqn:E.
    + apply andb_true_iff in E as [T Hnew]. rewrite IH, fmap_app, elem_of_app.
      cbn [fmap list_fmap name]. rewrite list_elem_of_singleton.
      destruct (Project t) as [p|] eqn:Ep; [|discriminate]. cbn [default truthy] in *.
      unfold id in *.
      apply negb_true_iff, String.eqb_neq in T.
      split.
      * intros [[? | ->] | (? & t' & ? & ?)]; [by left| |].
        -- right. split; [done|]. exists t. split; [left|done].
        -- right. split; [done|]. exists t'. split; [by right|done].
      * intros [?|(? & t' & [-> | ?]%elem_of_cons & Ht')]; [by left; left| |].
        -- left; right. congruence.
        -- right. eauto.
    + rewrite IH. split.
      * intros [?|(? & t' & ? & ?)]; [by left|]. right. split; [done|].
        exists t'. split; [by right|done].
      * intros [?|(Hn & t' & [-> | ?]%elem_of_cons & Ht')]; [by left| |by right; eauto].
        left. rewrite Ht' in E. cbn [default truthy] in E.
        apply String.eqb_neq in Hn. rewrite Hn in E. cbn [negb andb] in E.
        apply negb_false_iff, bool_decide_eq_true in E. done.
Qed.

Lemma builtProjects_names tasks n :
  n ∈ name <$> builtProjects localeCompare tasks
  ↔ n ≠ "" ∧ ∃ t, t ∈ tasks ∧ Project t = Some n.
Proof.
  unfold builtProjects. rewrite sortBy_perm, builtProjectsAcc_names.
  split; [intros [?%elem_of_nil|?]|]; by auto.
Qed.

Lemma cleanRows_project r data :
  r ∈ cleanRows newDate data → ∃ n, Project r = Some n ∧ n ≠ "".
Proof.
  unfold cleanRows. intros [Hk _]%list_elem_of_filter. unfold keepRow in Hk.
  repeat (apply andb_true_iff in Hk as [Hk _]).
  destruct (Project r) as [n|]; [|discriminate]. exists n. split; [done|].
  cbn in Hk. by apply negb_true_iff, String.eqb_neq in Hk.
Qed.

Lemma duplicateNames_elem cleaned st n :
  (∀ r, r ∈ cleaned → ∃ m, Project r = Some m ∧ m ≠ "") →
  n ∈ duplicateNames localeCompare cleaned st
  ↔ n ∈ (λ t, default "" (Project t)) <$> cleaned ∧ n ∈ loadedNames st.
Proof.
  intros Hne. unfold duplicateNames. rewrite list_elem_of_filter, setOfList_elem.
  rewrite builtProjects_names. unfold loadedNames. rewrite list_elem_of_omap.
  split.
  - intros ((_ & t & ? & ?) & ? & _). eauto.
  - intros (Hin & t & ? & ?). split; [|split; [done|by intros ?%elem_of_nil]].
    split; [|eauto].
    apply list_elem_of_fmap in Hin as (r & -> & Hr).
    destruct (Hne r Hr) as (m & -> & ?). done.
Qed.

Lemma fold_addLog_tasks {B} (f : B → string) (l : list B) : ∀ st,
  projectTasks (fold_left (λ s e, addLog (f e) s) l st) = projectTasks st.
Proof. induction l as [|e l IH]; intros st; cbn [fold_left]; [done|]. by rewrite IH. Qed.



End UploadFacts.



(** ** Project summary *)

Section VarianceFacts.
Import JsDate Aggregation.



Variable newDate : string → option Z.
Variable localeCompare : string → string → Z.
Variable endDateOverrides : gmap string string.


End VarianceFacts.

Section VarianceExamples.
Import JsDate Aggregation.



End VarianceExamples.

(** ** Store summary *)

Section StoreFacts.
Import JsDate Aggregation.

Variable newDate : string → option Z.
Variable localeCompare : string → string → Z.
Variable endDateOverrides : gmap string string.

Lemma mergeDates_comm a b : mergeDates a b = mergeDates b a.
Proof. unfold mergeDates. f_equal; [f_equal|]; lia. Qed.

Lemma mergeDates_assoc a b c : mergeDates a (mergeDates b c) = mergeDates (mergeDates a b) c.
Proof. unfold mergeDates. cbn [fst snd]. f_equal; [f_equal|]; lia. Qed.

Lemma accumulate_keys store s f d m k :
  k ∈ (accumulate store s f d m).*1 ↔ k = store ∨ k ∈ m.*1.
Proof.
  induction m as [|[k' a] m IH]; cbn [accumulate fmap list_fmap].
  - rewrite list_elem_of_singleton. cbn. split; [by left|]. by intros [?|?%elem_of_nil].
  - destruct (String.eqb_spec k' store) as [->|Hne]; cbn [fmap list_fmap fst].
    + rewrite elem_of_cons. tauto.
    + rewrite !elem_of_cons, IH. tauto.
Qed.

Lemma accumulate_wf store s f d m : wfAcc m → wfAcc (accumulate store s f d m).
Proof.
  intros [Hnd Hst]. induction m as [|[k' a] m IH]; cbn [accumulate].
  - split; [apply NoDup_singleton|]. by repeat constructor.
  - apply NoDup_cons in Hnd as [Hk Hnd]. apply Forall_cons in Hst as [Ha Hst].
    destruct (String.eqb_spec k' store) as [->|Hne].
    + split; [by apply NoDup_cons|]. apply Forall_cons. done.
    + destruct (IH Hnd Hst) as [Hnd' Hst']. split.
      * cbn [fmap list_fmap fst]. apply NoDup_cons. split; [|done].
        rewrite accumulate_keys. cbn in Hk. intros [?|?]; [congruence|done].
      * by apply Forall_cons.
Qed.

Lemma accumulate_dates store s f d m k :
  accDates <$> lookupAcc k (accumulate store s f d m)
  = if decide (k = store) then addDates (s, f, d) (accDates <$> lookupAcc store m)
    else accDates <$> lookupAcc k m.
Proof.
  induction m as [|[k' a] m IH]; cbn [accumulate lookupAcc].
  - destruct (decide (store = k)) as [->|]; [by rewrite decide_True|].
    by rewrite decide_False.
  - destruct (String.eqb_spec k' store) as [->|Hne]; cbn [lookupAcc].
    + destruct (decide (store = k)) as [->|]; [|by rewrite decide_False].
      rewrite !decide_True by done. unfold addDates, accDates, mergeDates.
      cbn [fmap option_fmap option_map from_option fst snd accStartDate accFinishDate accDueDate].
      f_equal. f_equal; [f_equal|].
      * destruct (Z.ltb_spec s (accStartDate a)); lia.
      * destruct (Z.ltb_spec (accFinishDate a) f); lia.
      * destruct (Z.ltb_spec (accDueDate a) d); lia.
    + rewrite (decide_False (P := k' = store)) by done.
      destruct (decide (k' = k)) as [->|Hk].
      * by rewrite decide_False.
      * apply IH.
Qed.

Lemma storeStep_dates m (p : ProjectSummary) k :
  accDates <$> lookupAcc k (storeStep newDate endDateOverrides m p)
  = from_option (λ t, addDates t (accDates <$> lookupAcc k m)) (accDates <$> lookupAcc k m)
      (if decide (Store (row p) = k) then rowDates newDate endDateOverrides (row p)
       else None).
Proof.
  unfold storeStep, rowDates.
  destruct (parseDate newDate (StartDate (row p))) as [s|];
    [|by destruct (decide _)].
  destruct (parseDate newDate (FinishDate (row p))) as [f|];
    [|by destruct (decide _)].
  destruct (parseDate newDate (effectiveDueDateStr endDateOverrides (row p))) as [d|];
    [|by destruct (decide _)].
  rewrite accumulate_dates. destruct (decide (Store (row p) = k)) as [->|].
  - by rewrite decide_True.
  - by rewrite decide_False.
Qed.

Lemma storeStep_wf m p : wfAcc m → wfAcc (storeStep newDate endDateOverrides m p).
Proof.
  intros Hwf. unfold storeStep. repeat case_match; try done. by apply accumulate_wf.
Qed.

Lemma storeStep_skip m (p : ProjectSummary) :
  rowDates newDate endDateOverrides (row p) = None → storeStep newDate endDateOverrides m p = m.
Proof. unfold rowDates, storeStep. by repeat case_match. Qed.

Lemma fold_addDates l : ∀ o,
  foldl (λ o t, addDates t o) o l
  = match o with
    | None => rollup l
    | Some a => Some (from_option (mergeDates a) a (rollup l))
    end.
Proof.
  induction l as [|t l IH]; intros o; cbn [foldl].
  - by destruct o.
  - rewrite IH. unfold addDates. cbn [rollup foldr]. fold (rollup l).
    destruct o as [a|]; cbn [from_option]; [|done].
    destruct (rollup l) as [b|]; cbn [from_option]; [|done].
    by rewrite mergeDates_assoc.
Qed.

Lemma fold_storeStep_dates l k : ∀ m,
  accDates <$> lookupAcc k (fold_left (storeStep newDate endDateOverrides) l m)
  = foldl (λ o t, addDates t o) (accDates <$> lookupAcc k m)
      (storeDates newDate endDateOverrides (row <$> l) k).
Proof.
  induction l as [|p l IH]; intros m; [done|].
  cbn [fold_left]. rewrite IH, storeStep_dates. unfold storeDates.
  cbn [fmap list_fmap omap list_omap].
  by destruct (decide (Store (row p) = k)); [destruct (rowDates newDate endDateOverrides (row p))|].
Qed.

Lemma fold_storeStep_wf l : ∀ m,
  wfAcc m → wfAcc (fold_left (storeStep newDate endDateOverrides) l m).
Proof.
  induction l as [|p l IH]; intros m Hwf; [done|]. apply IH. by apply storeStep_wf.
Qed.

Lemma rollup_perm l l' : l ≡ₚ l' → rollup l = rollup l'.
Proof.
  induction 1 as [|x l l' _ IH|x y l|l l' l'' _ IH1 _ IH2]; cbn [rollup foldr].
  - done.
  - fold (rollup l) (rollup l'). by rewrite IH.
  - fold (rollup l). destruct (rollup l) as [a|]; cbn [from_option].
    + f_equal. rewrite !mergeDates_assoc. f_equal. apply mergeDates_comm.
    + f_equal. apply mergeDates_comm.
  - congruence.
Qed.

Lemma rollup_bounds l t :
  rollup l = Some t →
  (∀ x, x ∈ l → t.1.1 ≤ x.1.1 ∧ x.1.2 ≤ t.1.2 ∧ x.2 ≤ t.2)
  ∧ (∃ x, x ∈ l ∧ x.1.1 = t.1.1) ∧ (∃ x, x ∈ l ∧ x.1.2 = t.1.2) ∧ (∃ x, x ∈ l ∧ x.2 = t.2).
Proof.
  revert t. induction l as [|y l IH]; intros t; [done|].
  cbn [rollup foldr]. fold (rollup l). destruct (rollup l) as [b|] eqn:E; cbn [from_option].
  - intros [= <-]. destruct (IH b eq_refl) as (Hb & (x1 & ? & ?) & (x2 & ? & ?) & (x3 & ? & ?)).
    unfold mergeDates. cbn [fst snd]. split; [|split; [|split]].
    + intros x [->|Hx]%elem_of_cons; [lia|]. specialize (Hb x Hx). lia.
    + destruct (Z.min_spec y.1.1 b.1.1) as [[_ ->]|[_ ->]];
        [exists y; split; [left|done]|exists x1; split; [by right|done]].
    + destruct (Z.max_spec y.1.2 b.1.2) as [[_ ->]|[_ ->]];
        [exists x2; split; [by right|done]|exists y; split; [left|done]].
    + destruct (Z.max_spec y.2 b.2) as [[_ ->]|[_ ->]];
        [exists x3; split; [by right|done]|exists y; split; [left|done]].
  - intros [= <-]. destruct l as [|z l].
    + split; [|by repeat split; exists y; (split; [left|done])].
      intros x [->|?%elem_of_nil]%elem_of_cons; [lia|done].
    + cbn [rollup foldr] in E. discriminate.
Qed.

Lemma lookupAcc_elem m k a :
  wfAcc m → (k, a) ∈ m ↔ lookupAcc k m = Some a.
Proof.
  intros [Hnd _]. induction m as [|[k' a'] m IH]; cbn [lookupAcc].
  - split; [by intros ?%elem_of_nil|done].
  - apply NoDup_cons in Hnd as [Hk Hnd]. rewrite elem_of_cons.
    destruct (decide (k' = k)) as [->|Hne].
    + split; [|by intros [= ->]; left].
      intros [[= ->]|Hin]; [done|]. exfalso. apply Hk.
      apply list_elem_of_fmap. by exists (k, a).
    + rewrite <-(IH Hnd). split; [|by right]. by intros [[= -> ->]|?].
Qed.

Lemma storeDates_perm rows rows' k :
  rows ≡ₚ rows' →
  storeDates newDate endDateOverrides rows k ≡ₚ storeDates newDate endDateOverrides rows' k.
Proof. intros H. unfold storeDates. by rewrite H. Qed.

Lemma projectSummaryList_rows rows :
  row <$> projectSummaryList newDate localeCompare endDateOverrides rows ≡ₚ rows.
Proof.
  unfold projectSummaryList. rewrite sortBy_perm, <-list_fmap_compose.
  induction rows as [|p rows' IH]; [done|]. cbn [fmap list_fmap]. by constructor.
Qed.

Lemma finishStore_record a : finishStore a = storeRecord (accStore a) (accDates a).
Proof. reflexivity. Qed.

(** The store summary has one record per store with a project that takes
    part in the rollup, and that record is the rollup of those projects. *)
Lemma storeSummary_elem rows r :
  r ∈ storeSummaryList newDate localeCompare endDateOverrides
        (projectSummaryList newDate localeCompare endDateOverrides rows)
  ↔ ∃ t, rollup (storeDates newDate endDateOverrides rows (sStore r)) = Some t
         ∧ r = storeRecord (sStore r) t.
Proof.
  unfold storeSummaryList, storeSummaryMap. rewrite sortBy_elem.
  set (l := projectSummaryList _ _ _ rows).
  assert (wfAcc (fold_left (storeStep newDate endDateOverrides) l [])) as Hwf.
  { apply fold_storeStep_wf. split; [apply NoDup_nil_2|apply Forall_nil_2]. }
  assert (∀ k, accDates <$> lookupAcc k (fold_left (storeStep newDate endDateOverrides) l [])
               = rollup (storeDates newDate endDateOverrides rows k)) as Hdates.
  { intros k. rewrite fold_storeStep_dates, fold_addDates. cbn [lookupAcc fmap option_fmap option_map].
    apply rollup_perm, storeDates_perm, projectSummaryList_rows. }
  split.
  - intros (a & -> & ([k a'] & -> & Hin)%list_elem_of_fmap)%list_elem_of_fmap.
    cbn [snd]. destruct Hwf as [Hnd Hst]. pose proof Hin as Hin'.
    rewrite Forall_forall in Hst. apply Hst in Hin'. cbn [fst snd] in Hin'.
    apply (lookupAcc_elem _ _ _ (conj Hnd (proj2 (Forall_forall _ _) Hst))) in Hin.
    exists (accDates a'). rewrite finishStore_record. cbn [sStore storeRecord].
    split; [|done]. rewrite <-Hdates, Hin', Hin. done.
  - intros (t & Ht & Hr). rewrite <-Hdates in Ht.
    destruct (lookupAcc (sStore r) _) as [a|] eqn:Ha; [|done].
    injection Ht as <-. apply lookupAcc_elem in Ha; [|done].
    destruct Hwf as [_ Hst]. rewrite Forall_forall in Hst.
    pose proof (Hst _ Ha) as Hk. cbn [fst snd] in Hk.
    apply list_elem_of_fmap. exists a. split; [by rewrite Hr, finishStore_record, Hk|].
    apply list_elem_of_fmap. by exists (sStore r, a).
Qed.


End StoreFacts.

Section StoreClaims.
Import JsDate Aggregation.

Lemma ref_parse tz s n :
  parseDate (RefHost.newDate 0) (Some s) = Some n →
  parseDate (RefHost.newDate tz) (Some s) = Some (n - tz).
Proof.
  unfold parseDate, RefHost.newDate. destruct (String.eqb s ""); [done|].
  destruct (RefHost.localYMD (replaceDash s)) as [l|]; [|done].
  cbn. intros [= <-]. f_equal. lia.
Qed.







(** East of UTC the dates of the same example come out a day early:
    [formatDate] prints the UTC date of a local midnight. *)
Example store_example_east :
  storeSummaryList (RefHost.newDate 3600000) RefHost.localeCompare ∅
    (projectSummaryList (RefHost.newDate 3600000) RefHost.localeCompare ∅ [projectX; projectY])
  = [ {| sStore := "Store-A"; sStartDate := "2025-06-30"; sFinishDate := "2025-07-19";
         sDueDate := "2025-07-14"; sDaysVariance := -5 |} ].
Proof. vm_compute. reflexivity. Qed.

Section Skipped.

Variable newDate : string → option Z.
Variable localeCompare : string → string → Z.
Variable endDateOverrides : gmap string string.

Lemma unparseable_rowDates p :
  unparseable newDate endDateOverrides p ↔ rowDates newDate endDateOverrides p = None.
Proof.
  unfold unparseable, rowDates.
  destruct (parseDate newDate (StartDate p)), (parseDate newDate (FinishDate p)),
    (parseDate newDate (effectiveDueDateStr endDateOverrides p)); split; try done;
    try tauto; intros [?|[?|?]]; done.
Qed.

(** C10, as amended.  A project summary row with a StartDate, FinishDate
    or effective DueDate that does not parse leaves the store accumulator
    untouched.  So a store all of whose projects have such a date has no
    record in the store summary, while each of its projects is still a
    row of the project summary; that row has daysVariance 0 when the date
    that fails is the FinishDate or the effective DueDate. *)
Theorem C10_unparseable_rows_skipped (rows : list ProjectRow) :
  let project := projectSummaryList newDate localeCompare endDateOverrides rows in
  let stores := storeSummaryList newDate localeCompare endDateOverrides project in
  (∀ m s, unparseable newDate endDateOverrides (row s) → storeStep newDate endDateOverrides m s = m)
  ∧ (∀ store, (∀ p, p ∈ rows → Store p = store → unparseable newDate endDateOverrides p) →
       ∀ r, r ∈ stores → sStore r ≠ store)
  ∧ (∀ p, p ∈ rows →
       ∃ s, s ∈ project ∧ row s = p
            ∧ (parseDate newDate (FinishDate p) = None
               ∨ parseDate newDate (effectiveDueDateStr endDateOverrides p) = None
               → daysVariance s = 0)).
Proof.
  intros project stores. split; [|split].
  - intros m s Hs. apply storeStep_skip. by apply unparseable_rowDates.
  - intros store Hall r Hr <-. apply storeSummary_elem in Hr as (t & Ht & _).
    assert (storeDates newDate endDateOverrides rows (sStore r) = []) as Hnil.
    { unfold storeDates. clear Ht. induction rows as [|p rows' IH]; [done|].
      cbn [omap list_omap]. destruct (decide (Store p = sStore r)) as [Hp|Hp].
      - assert (rowDates newDate endDateOverrides p = None) as ->.
        { apply unparseable_rowDates, Hall; [left|done]. }
        apply IH. intros q Hq. apply Hall. by right.
      - apply IH. intros q Hq. apply Hall. by right. }
    rewrite Hnil in Ht. done.
  - intros p Hp. exists (summarize newDate endDateOverrides p). split; [|split; [done|]].
    + unfold project, projectSummaryList. rewrite sortBy_elem.
      apply list_elem_of_fmap. by exists p.
    + cbn [summarize daysVariance]. unfold diffDays. intros [-> | ->]; [|done].
      by destruct (parseDate newDate (effectiveDueDateStr endDateOverrides p)).
Qed.

End Skipped.

Lemma C10_witness :
  let p := {| Project := "Project Z"; Store := "Store-B"; StartDate := Some "2025-07-01";
              DueDate := Some "2025-07-12"; FinishDate := Some "TBD" |} in
  let summary := summaryData (RefHost.newDate 0) RefHost.localeCompare ∅ [p] in
  summary.2 = [] ∧ (daysVariance <$> summary.1) = [0].
Proof.
  intros p summary.
  destruct (C10_unparseable_rows_skipped (RefHost.newDate 0) RefHost.localeCompare ∅ [p])
    as (_ & Hnone & _).
  split; [|vm_compute; reflexivity].
  destruct (summary.2) as [|r rs] eqn:E; [done|]. exfalso.
  apply (Hnone "Store-B") with (r := r).
  - intros q ->%list_elem_of_singleton _. right. left. vm_compute. reflexivity.
  - unfold summary, summaryData in E. cbn [snd] in E. rewrite E. left.
  - revert E. vm_compute. discriminate.
Defined.

(** C10, as stated, fails in its last part: a project whose StartDate does
    not parse is left out of the store rollup, so its store has no record,
    yet its project summary row has the variance of its due and finish
    dates, here 2 and not 0. *)
Lemma C10_counterexample :
  let p := {| Project := "Project Z"; Store := "Store-B"; StartDate := Some "TBD";
              DueDate := Some "2025-07-12"; FinishDate := Some "2025-07-10" |} in
  let summary := summaryData (RefHost.newDate 0) RefHost.localeCompare ∅ [p] in
  parseDate (RefHost.newDate 0) (StartDate p) = None
  ∧ summary.2 = []
  ∧ (daysVariance <$> summary.1) = [2].
Proof. vm_compute. repeat split; reflexivity. Qed.

End StoreClaims.

(** ** Timeline domain *)

Section DomainFacts.
Import JsDate Aggregation Gantt.



Variable tz : Z.
Variable newDate : string → option Z.
Variable startDateOverrides : gmap string string.
Variable endDateOverrides : gmap string string.


End DomainFacts.

Section DomainExample.
Import JsDate Aggregation Gantt.


(** The example of the domain padding in any zone of the reference host:
    a project running from 2025-07-01 to 2025-07-31 gives the range from
    local midnight of 2025-06-24 to local midnight of 2025-08-07. *)
Lemma domain_example_any_zone tz localeCompare :
  ∃ lo hi,
    dateRange tz (RefHost.newDate tz) ∅ ∅
      (projectSummaryList (RefHost.newDate tz) localeCompare ∅ [projectJuly])
    = Some (lo, hi)
    ∧ parseDate (RefHost.newDate tz) (Some "2025-06-24") = Some lo
    ∧ parseDate (RefHost.newDate tz) (Some "2025-08-07") = Some hi.
Proof.
  exists (20263 * msPerDay - tz), (20307 * msPerDay - tz).
  split; [|split; apply ref_parse; vm_compute; reflexivity].
  unfold dateRange, validTimestamps, projectSummaryList.
  cbn [fmap list_fmap sortBy foldr sortInsert mbind list_bind app projectDates
       summarize row OriginalStartDate projectJuly StartDate DueDate FinishDate Project].
  unfold jsOr. rewrite !lookup_empty. cbn [truthy].
  rewrite (ref_parse tz "2025-07-01" (20270 * msPerDay)) by (vm_compute; reflexivity).
  rewrite (ref_parse tz "2025-07-31" (20300 * msPerDay)) by (vm_compute; reflexivity).
  cbn [omap list_omap id minList maxList]. rewrite !addDays_fixed.
  assert (0 < msPerDay) by done. do 2 f_equal; lia.
Qed.

End DomainExample.

(** ** Drag state machine *)

Section DragFacts.
Import JsDate Aggregation Gantt.

Variable tz : Z.

Local Opaque formatDate.

Lemma handleMouseMove_some width range d ds :
  handleMouseMove tz width range d (Some ds)
  = Some (if moveAllowed width range then withVisual ds (moveDates tz ds d) else ds).
Proof.
  unfold handleMouseMove, moveAllowed. destruct range as [[lo hi]|]; [|done].
  destruct ((width <=? 0) || (hi - lo <=? 0)); [done|].
  cbn [negb]. by destruct (moveDates tz ds d).
Qed.

Lemma moveDates_withVisual ds v d : moveDates tz (withVisual ds v) d = moveDates tz ds d.
Proof. reflexivity. Qed.

Lemma withVisual_twice ds v v' : withVisual (withVisual ds v) v' = withVisual ds v'.
Proof. reflexivity. Qed.

(** After the press, the state of a gesture is decided by its last move. *)
Lemma dragMoves_last width range dayDeltas : ∀ ds,
  dragMoves tz width range dayDeltas (Some ds)
  = Some (match last dayDeltas with
          | Some d => if moveAllowed width range then withVisual ds (moveDates tz ds d) else ds
          | None => ds
          end).
Proof.
  unfold dragMoves.
  induction dayDeltas as [|d l IH]; intros ds; [done|].
  cbn [fold_left]. rewrite handleMouseMove_some, IH.
  destruct l as [|d' l]; [done|]. rewrite (last_cons d).
  destruct (last (d' :: l)) as [d''|] eqn:E; [|done].
  by destruct (moveAllowed width range).
Qed.


Lemma handleMouseUp_pressed ds : pressed ds → handleMouseUp (Some ds) = [].
Proof.
  intros [Hs Hf]. unfold handleMouseUp. rewrite Hs, Hf.
  destruct (type ds); by rewrite bool_decide_eq_false_2 by (intros ?; done).
Qed.







End DragFacts.

Section DragExamples.
Import JsDate Aggregation Gantt.






End DragExamples.

(** * Properties of the further code *)

(** ** CSV export and the splitting of rows *)

Section ExportFacts.
Import Csv CsvExport.

Lemma length_append s t :
  String.length (s +:+ t) = (String.length s + String.length t)%nat.
Proof. induction s as [|c s IH]; [done|]. rewrite append_cons. cbn. by rewrite IH. Qed.

Lemma rev_app_app s1 : ∀ s2 acc,
  String.rev_app (s1 +:+ s2) acc = String.rev_app s2 (String.rev_app s1 acc).
Proof. induction s1 as [|c s1 IH]; intros s2 acc; [done|]. rewrite append_cons. cbn. apply IH. Qed.

Lemma rev_app_head t : ∀ x y, t ≠ "" →
  match String.rev_app t x with String c _ => Some c | EmptyString => None end
  = match String.rev_app t y with String c _ => Some c | EmptyString => None end.
Proof.
  induction t as [|c t IH]; intros x y Hne; [done|]. cbn.
  destruct t as [|c' t']; [done|]. by apply IH.
Qed.

Lemma endsWithComma_app s t : t ≠ "" → endsWithComma (s +:+ t) = endsWithComma t.
Proof.
  intros Hne. unfold endsWithComma, String.rev. rewrite rev_app_app.
  pose proof (rev_app_head t (String.rev_app s "") "" Hne) as H.
  destruct (String.rev_app t (String.rev_app s "")), (String.rev_app t ""); naive_solver.
Qed.

Lemma endsWithComma_cons c t : t ≠ "" → endsWithComma (String c t) = endsWithComma t.
Proof. intros. by apply (endsWithComma_app (String c "") t). Qed.

Lemma endsWithComma_plain s : includes "," s = false → endsWithComma s = false.
Proof.
  induction s as [|c s IH]; [done|]. cbn [includes]. intros [Hc Hs]%orb_false_iff.
  destruct s as [|c' s']; [by unfold endsWithComma; cbn|].
  rewrite endsWithComma_cons by done. by apply IH.
Qed.

Lemma scanPlain_comma v r :
  includes "," v = false → scanPlain (v +:+ String "," r) = (v, String "," r).
Proof.
  induction v as [|c v IH]; [done|]. cbn [includes]. intros [Hc Hv]%orb_false_iff.
  rewrite append_cons. cbn [scanPlain]. rewrite Hc, IH by done. done.
Qed.

Lemma scanPlain_end v : includes "," v = false → scanPlain v = (v, "").
Proof.
  induction v as [|c v IH]; [done|]. cbn [includes]. intros [Hc Hv]%orb_false_iff.
  cbn [scanPlain]. rewrite Hc, IH by done. done.
Qed.

(** Reading back an escaped text up to its closing quote. *)
Lemma scanQuoted_closing v r :
  (∀ c r', r = String c r' → Ascii.eqb c dquote = false) →
  scanQuoted (doubleQuotes v +:+ String dquote r) = (v, r).
Proof.
  intros Hr. induction v as [|c v IH].
  - change (doubleQuotes "" +:+ String dquote r) with (String dquote r).
    cbn [scanQuoted]. rewrite Ascii.eqb_refl.
    destruct r as [|c' r']; [done|]. by rewrite (Hr c' r').
  - cbn [doubleQuotes]. destruct (Ascii.eqb c dquote) eqn:Hc.
    + apply Ascii.eqb_eq in Hc as ->. rewrite !append_cons. cbn [scanQuoted].
      rewrite Ascii.eqb_refl, IH. done.
    + rewrite append_cons. cbn [scanQuoted]. rewrite Hc, IH. done.
Qed.

Lemma splitLoop_empty n : splitLoop n "" = [].
Proof. by destruct n. Qed.

Lemma includes_head c v : includes c v = false → ∀ c' v', v = String c' v' → Ascii.eqb c' c = false.
Proof. intros H c' v' ->. cbn in H. by apply orb_false_iff in H as [? _]. Qed.

(** One round of the outer loop on a written cell followed by a comma. *)
Lemma splitLoop_cell v r n :
  (String.length (csvCell v +:+ String "," r) ≤ n)%nat →
  splitLoop n (csvCell v +:+ String "," r) = v :: splitLoop (String.length r) r.
Proof.
  intros Hn. unfold csvCell in *.
  destruct (includes "," v || includes dquote v) eqn:Hq.
  - rewrite append_cons, append_assoc, append_cons in *.
    change ("" +:+ String "," r) with (String "," r) in *.
    destruct n as [|n]; [cbn in Hn; lia|]. cbn [splitLoop].
    rewrite Ascii.eqb_refl. rewrite scanQuoted_closing by (by intros ? ? [= <- _]).
    cbn [skipComma]. rewrite Ascii.eqb_refl. f_equal.
    apply splitLoop_fuel; [|done]. cbn in Hn. rewrite length_append in Hn. cbn in Hn. lia.
  - apply orb_false_iff in Hq as [Hc Hd].
    destruct n as [|n]; [rewrite length_append in Hn; cbn in Hn; lia|].
    assert (String.length r ≤ n)%nat as Hr.
    { rewrite length_append in Hn. cbn in Hn. lia. }
    destruct v as [|c v].
    + cbn. f_equal. by apply splitLoop_fuel.
    + rewrite append_cons. cbn [splitLoop].
      rewrite (includes_head _ _ Hd c v eq_refl).
      rewrite <-append_cons, scanPlain_comma by done. cbn [skipComma].
      rewrite Ascii.eqb_refl. f_equal. by apply splitLoop_fuel.
Qed.

(** The outer loop on a written cell that ends the row. *)
Lemma splitLoop_last v n :
  v ≠ "" → (String.length (csvCell v) ≤ n)%nat → splitLoop n (csvCell v) = [v].
Proof.
  intros Hv Hn. unfold csvCell in *.
  destruct (includes "," v || includes dquote v) eqn:Hq.
  - destruct n as [|n]; [cbn in Hn; lia|]. cbn [splitLoop].
    rewrite Ascii.eqb_refl, scanQuoted_closing by done. cbn. by rewrite splitLoop_empty.
  - apply orb_false_iff in Hq as [Hc Hd].
    destruct v as [|c v]; [done|]. destruct n as [|n]; [cbn in Hn; lia|].
    cbn [splitLoop]. rewrite (includes_head _ _ Hd c v eq_refl).
    rewrite scanPlain_end by done. cbn. by rewrite splitLoop_empty.
Qed.

Lemma endsWithComma_cell v : endsWithComma (csvCell v) = false.
Proof.
  unfold csvCell. destruct (includes "," v || includes dquote v) eqn:Hq.
  - rewrite <-append_cons. rewrite endsWithComma_app by done. done.
  - apply orb_false_iff in Hq as [Hc _]. by apply endsWithComma_plain.
Qed.

Lemma csvCell_empty v : csvCell v = "" → v = "".
Proof.
  unfold csvCell. destruct (includes "," v || includes dquote v); [done|done].
Qed.

Lemma join_cells_empty vs :
  join "," (csvCell <$> vs) = "" → vs = [] ∨ vs = [""].
Proof.
  destruct vs as [|v [|v' vs]]; [by left| |].
  - cbn. intros ->%csvCell_empty. by right.
  - rewrite !fmap_cons, join_cons. intros E. exfalso.
    destruct (csvCell v); discriminate E.
Qed.

Lemma csv_cells_split (values : list string) :
  values ≠ [""] →
  splitCsvRow (join "," (csvCell <$> values)) = values.
Proof.
  induction values as [|v rest IH]; intros Hne; [done|].
  destruct rest as [|v' rest'].
  - cbn [fmap list_fmap join]. unfold splitCsvRow.
    rewrite endsWithComma_cell, app_nil_r. apply splitLoop_last; [congruence|done].
  - rewrite 2!fmap_cons, join_cons, <-fmap_cons. set (L := join "," (csvCell <$> v' :: rest')) in *.
    change ("," +:+ L) with (String "," L). unfold splitCsvRow.
    rewrite splitLoop_cell by done.
    destruct (decide (v' :: rest' = [""])) as [E|Hrest].
    + injection E as -> ->. subst L. cbn [fmap list_fmap join].
      change (csvCell "") with "". cbn [String.length splitLoop].
      rewrite endsWithComma_app by done. done.
    + specialize (IH Hrest). unfold splitCsvRow in IH.
      assert (L ≠ "") as HL.
      { intros [E|E]%join_cells_empty; [done|by rewrite E in Hrest]. }
      rewrite endsWithComma_app by done.
      rewrite endsWithComma_cons by done. cbn [app]. by rewrite IH.
Qed.

(** X1. Splitting a row that [simpleCsvUnparse] wrote gives back the cell
    texts it was written from, commas and quote characters included; a
    [null], [undefined] or missing value comes back as the empty text.
    The row must not consist of a single empty cell: that one is written
    as the empty line. *)
Theorem X1_written_row_splits_back (headers : list string) (obj : JsObject) :
  let values := (λ header, default "" (get obj header)) <$> headers in
  values ≠ [""] →
  splitCsvRow (csvRow headers obj) = values.
Proof.
  intros values Hne. unfold csvRow.
  rewrite (list_fmap_compose (λ header, default "" (get obj header)) csvCell).
  by apply csv_cells_split.
Qed.

Lemma includes_app c s t : includes c (s +:+ t) = includes c s || includes c t.
Proof.
  induction s as [|c' s IH]; [done|]. rewrite append_cons. cbn [includes].
  by rewrite IH, orb_assoc.
Qed.

Lemma scanPlain_parts s :
  s = (scanPlain s).1 +:+ (scanPlain s).2
  ∧ includes "," (scanPlain s).1 = false
  ∧ ((scanPlain s).2 = "" ∨ ∃ r, (scanPlain s).2 = String "," r).
Proof.
  induction s as [|c s IH]; [by cbn; auto|]. cbn [scanPlain].
  destruct (Ascii.eqb c ",") eqn:Hc.
  - apply Ascii.eqb_eq in Hc as ->. cbn. eauto.
  - destruct (scanPlain s) as [f r]. cbn [fst snd] in *. destruct IH as (E & Hf & Hr).
    rewrite append_cons, <-E. cbn [includes]. by rewrite Hc, Hf.
Qed.

Lemma splitCsvRow_plain_fuel n : ∀ s,
  (String.length s ≤ n)%nat → includes dquote s = false → s ≠ "" →
  ∃ l, splitLoop n s ++ (if endsWithComma s then [""] else []) = l
       ∧ l ≠ [] ∧ join "," l = s.
Proof.
  induction n as [|n IH]; intros s Hn Hq Hne.
  { destruct s; [done|cbn in Hn; lia]. }
  destruct s as [|c t]; [done|]. cbn [splitLoop].
  rewrite (includes_head _ _ Hq c t eq_refl).
  destruct (scanPlain_parts (String c t)) as (E & Hf & Hr).
  destruct (scanPlain (String c t)) as [f r]. cbn [fst snd] in *.
  destruct Hr as [->|[r' ->]].
  - rewrite append_nil_r in E. rewrite E. cbn [skipComma]. rewrite splitLoop_empty.
    rewrite endsWithComma_plain by done. exists [f]. by rewrite app_nil_r.
  - cbn [skipComma]. rewrite Ascii.eqb_refl. rewrite E.
    assert (String.length r' ≤ n)%nat as Hr'.
    { rewrite E, length_append in Hn. cbn in Hn. lia. }
    destruct (decide (r' = "")) as [->|Hr'ne].
    + rewrite splitLoop_empty, endsWithComma_app by done.
      exists [f; ""]. split; [done|]. split; [done|]. by rewrite join_cons.
    + rewrite endsWithComma_app, endsWithComma_cons by done.
      assert (includes dquote r' = false) as Hq'.
      { rewrite E, includes_app in Hq. apply orb_false_iff in Hq as [_ Hq].
        cbn [includes] in Hq. by apply orb_false_iff in Hq as [_ Hq]. }
      destruct (IH r' Hr' Hq' Hr'ne) as (l' & El & Hl' & Ej).
      exists (f :: l'). cbn [app]. rewrite El. split; [done|]. split; [done|].
      destruct l' as [|y l'']; [done|]. by rewrite join_cons, Ej.
Qed.

(** X2. A row text without a quote character is the comma-join of its
    split: [splitCsvRow] drops nothing from such a row and adds nothing. *)
Theorem X2_plain_row_joins_back (s : string) :
  includes dquote s = false → join "," (splitCsvRow s) = s.
Proof.
  intros Hq. destruct (decide (s = "")) as [->|Hne]; [done|].
  destruct (splitCsvRow_plain_fuel (String.length s) s) as (l & El & _ & Ej); [done..|].
  unfold splitCsvRow. by rewrite El.
Qed.

End ExportFacts.

(** ** Rows and errors of the parser *)

Section ParseFacts.
Import Csv CsvExport.

Lemma elem_of_concat {A} (x : A) (ls : list (list A)) :
  x ∈ concat ls ↔ ∃ l, x ∈ l ∧ l ∈ ls.
Proof.
  induction ls as [|l ls IH]; cbn [concat].
  - split; [by intros ?%elem_of_nil|by intros (? & _ & ?%elem_of_nil)].
  - rewrite elem_of_app, IH. split.
    + intros [?|(l' & ? & ?)]; [exists l; split; [done|left]|exists l'; split; [done|by right]].
    + intros (l' & ? & [->|?]%elem_of_cons); [by left|right; eauto].
Qed.

(** The cell kept for column [k]: the one under the last header named [k]. *)
Lemma rowObject_lookup k : ∀ header values acc,
  length values = length header →
  rowObject header values acc !! k
  = match last (filter (λ p, p.1 = k) (zip header values)) with
    | Some p => Some p.2
    | None => acc !! k
    end.
Proof.
  induction header as [|h hs IH]; intros values acc Hlen.
  - by destruct values.
  - destruct values as [|v vs]; [done|]. cbn [rowObject zip zip_with].
    rewrite IH by (cbn in Hlen; lia). rewrite filter_cons. cbn [fst].
    case_decide as Hk.
    + rewrite last_cons. destruct (last (filter (λ p, p.1 = k) (zip hs vs))); [done|].
      cbn. subst. by rewrite lookup_insert_eq.
    + destruct (last (filter (λ p, p.1 = k) (zip hs vs))); [done|].
      by rewrite lookup_insert_ne.
Qed.




Lemma splitLines_single s : includes "010" s = false → splitLines s = [s].
Proof.
  induction s as [|c s IH]; [done|]. cbn [includes splitLines].
  intros [Hc Hs]%orb_false_iff. rewrite Hc, IH by done. done.
Qed.

Lemma splitLines_nonempty s : splitLines s ≠ [].
Proof.
  induction s as [|c s IH]; [done|]. cbn [splitLines].
  destruct (Ascii.eqb c "010"); [done|]. by destruct (splitLines s).
Qed.

Lemma splitLines_more s : includes "010" s = true → ∃ a b l, splitLines s = a :: b :: l.
Proof.
  induction s as [|c s IH]; [done|]. cbn [includes splitLines].
  destruct (Ascii.eqb c "010").
  - intros _. pose proof (splitLines_nonempty s). destruct (splitLines s) as [|b l]; [done|]. eauto.
  - cbn [orb]. intros (a & b & l & ->)%IH. eauto.
Qed.

Lemma includes_removeCR s : includes "010" (removeCR s) = includes "010" s.
Proof.
  induction s as [|c s IH]; [done|]. cbn [removeCR includes].
  destruct (Ascii.eqb c "013") eqn:Hc.
  - apply Ascii.eqb_eq in Hc as ->. by rewrite IH.
  - cbn [includes]. by rewrite IH.
Qed.

Lemma lineOutcome_errors header i line e :
  e ∈ (lineOutcome header i line).2 → ∃ rest, message e = String "R" rest.
Proof.
  unfold lineOutcome. destruct (isBlank line); [by intros ?%elem_of_nil|].
  case_bool_decide; [by intros ?%elem_of_nil|].
  cbn [snd]. intros ->%list_elem_of_singleton. cbn [message]. eexists. reflexivity.
Qed.

(** X4. [robustCsvParse] answers with no row and the one error that the
    CSV has no data rows exactly when the trimmed text holds no line feed,
    that is when it is a single line. *)
Theorem X4_no_data_rows (csvText : string) :
  robustCsvParse csvText
    = {| data := []; errors := [ {| message := "CSV has no data rows." |} ] |}
  ↔ includes "010" (trim csvText) = false.
Proof.
  unfold robustCsvParse, csvLines. split.
  - intros E. destruct (includes "010" (trim csvText)) eqn:Hn; [exfalso|done].
    rewrite <-includes_removeCR in Hn. apply splitLines_more in Hn as (a & b & l & El).
    rewrite El, parseLines_outcomes in E. apply (f_equal errors) in E.
    cbn [data errors app] in E.
    match type of E with
    | ?L = _ => assert ({| message := "CSV has no data rows." |} ∈ L) as Hin
                  by (rewrite E; left)
    end.
    apply elem_of_concat in Hin as (es & Hin & Hes).
    apply list_elem_of_fmap in Hes as ([n line] & -> & _).
    apply lineOutcome_errors in Hin as [rest Hrest]. discriminate Hrest.
  - intros Hn. rewrite <-includes_removeCR in Hn. by rewrite (splitLines_single _ Hn).
Qed.

End ParseFacts.

(** ** Export followed by import *)

Section RoundTripFacts.
Import Csv CsvExport.

Lemma includes_join c sep l :
  includes c sep = false → Forall (without c) l → includes c (join sep l) = false.
Proof.
  intros Hsep. induction 1 as [|x l Hx Hl IH]; [done|].
  destruct l as [|y l]; [done|]. rewrite join_cons, !includes_app, Hx, Hsep. exact IH.
Qed.

Lemma includes_doubleQuotes c v :
  Ascii.eqb dquote c = false → includes c (doubleQuotes v) = includes c v.
Proof.
  intros Hc. induction v as [|a v IH]; [done|]. cbn [doubleQuotes].
  destruct (Ascii.eqb a dquote) eqn:Ha.
  - apply Ascii.eqb_eq in Ha as ->. cbn [includes]. by rewrite Hc, IH.
  - cbn [includes]. by rewrite IH.
Qed.

Lemma includes_csvCell c v :
  Ascii.eqb dquote c = false → includes c (csvCell v) = includes c v.
Proof.
  intros Hc. unfold csvCell. destruct (includes "," v || includes dquote v); [|done].
  cbn [includes]. rewrite Hc, includes_app, includes_doubleQuotes by done.
  cbn [includes]. by rewrite Hc, !orb_false_r.
Qed.

Lemma removeCR_id s : includes "013" s = false → removeCR s = s.
Proof.
  induction s as [|c s IH]; [done|]. cbn [includes removeCR].
  intros [Hc Hs]%orb_false_iff. by rewrite Hc, IH.
Qed.

Lemma splitLines_app x r :
  includes "010" x = false → splitLines (x +:+ String "010" r) = x :: splitLines r.
Proof.
  induction x as [|c x IH]; [done|]. cbn [includes]. intros [Hc Hx]%orb_false_iff.
  rewrite append_cons. cbn [splitLines]. by rewrite Hc, IH.
Qed.

Lemma splitLines_join lines :
  lines ≠ [] → Forall (without "010") lines → splitLines (join newline lines) = lines.
Proof.
  intros Hne Hall. induction Hall as [|x l Hx Hl IH]; [done|].
  destruct l as [|y l]; [by apply splitLines_single|].
  rewrite join_cons. unfold newline at 1.
  change (String "010" "" +:+ join newline (y :: l)) with (String "010" (join newline (y :: l))).
  rewrite splitLines_app by done. f_equal. by apply IH.
Qed.

Lemma includes_rev_app c s : ∀ acc,
  includes c (String.rev_app s acc) = includes c s || includes c acc.
Proof.
  induction s as [|a s IH]; intros acc; [done|]. cbn [String.rev_app includes].
  rewrite IH. cbn [includes]. destruct (Ascii.eqb a c), (includes c s); done.
Qed.

Lemma includes_rev c s : includes c (String.rev s) = includes c s.
Proof. unfold String.rev. by rewrite includes_rev_app, orb_false_r. Qed.

Lemma includes_trimStart c s :
  isWhite c = false → includes c (trimStart s) = includes c s.
Proof.
  intros Hc. induction s as [|a s IH]; [done|]. cbn [trimStart].
  destruct (isWhite a) eqn:Ha; [|done]. cbn [includes]. rewrite IH.
  destruct (Ascii.eqb_spec a c) as [->|]; [congruence|done].
Qed.

Lemma isBlank_comma s : includes "," s = true → isBlank s = false.
Proof.
  intros Hs. unfold isBlank, trim. apply String.eqb_neq. intros E.
  assert (includes "," (String.rev (trimStart (String.rev (trimStart s)))) = true) as H.
  { by rewrite includes_rev, includes_trimStart, includes_rev, includes_trimStart. }
  by rewrite E in H.
Qed.

Lemma csvCell_plain v : includes "," v = false → includes dquote v = false → csvCell v = v.
Proof. intros Hc Hq. unfold csvCell. by rewrite Hc, Hq. Qed.

Lemma join_two_comma x y l : includes "," (join "," (x :: y :: l)) = true.
Proof. rewrite join_cons, includes_app. cbn [append includes]. by rewrite orb_true_r. Qed.

Lemma filter_key_absent (cell : string → string) k hs :
  k ∉ hs → filter (λ p : string * string, p.1 = k) ((λ h, (h, cell h)) <$> hs) = [].
Proof.
  induction hs as [|h hs IH]; [done|]. intros Hk. cbn [fmap list_fmap].
  rewrite filter_cons_False; [apply IH|].
  - intros ?. apply Hk. by right.
  - cbn. intros ->. apply Hk. left.
Qed.

Lemma rowObject_readBack (headers : list string) (obj : JsObject) :
  NoDup headers →
  rowObject headers ((λ header, default "" (get obj header)) <$> headers) ∅
  = readBack headers obj.
Proof.
  intros Hnd. apply map_eq. intros k.
  rewrite rowObject_lookup by (by rewrite length_fmap). unfold readBack.
  set (cell := λ header, default "" (get obj header)).
  assert (zip headers (cell <$> headers) = (λ h, (h, cell h)) <$> headers) as ->.
  { clear. induction headers as [|h hs IH]; [done|]. cbn. by rewrite IH. }
  induction headers as [|h hs IH]; [done|].
  apply NoDup_cons in Hnd as [Hh Hnd]. cbn [fmap list_fmap].
  rewrite list_to_map_cons, filter_cons. cbn [fst snd]. specialize (IH Hnd).
  destruct (decide (h = k)) as [->|Hne].
  - rewrite lookup_insert_eq, filter_key_absent by done. done.
  - rewrite lookup_insert_ne by done. exact IH.
Qed.

Lemma two_not_single {A} (l : list A) (x : A) : (2 ≤ length l)%nat → l ≠ [x].
Proof. intros Hl ->. cbn in Hl. lia. Qed.

Lemma csvRow_cells headers obj :
  csvRow headers obj = join "," (csvCell <$> ((λ header, default "" (get obj header)) <$> headers)).
Proof. unfold csvRow. by rewrite <-list_fmap_compose. Qed.

Lemma parseLines_written headers objs : ∀ i acc,
  (2 ≤ length headers)%nat →
  NoDup headers →
  parseLines headers i (csvRow headers <$> objs) acc
  = {| data := data acc ++ (readBack headers <$> objs); errors := errors acc |}.
Proof.
  induction objs as [|obj objs IH]; intros i acc Hlen Hnd.
  - cbn. rewrite app_nil_r. by destruct acc.
  - cbn [fmap list_fmap parseLines].
    set (cells := (λ header, default "" (get obj header)) <$> headers).
    assert (length cells = length headers) as Hcells by (subst cells; by rewrite length_fmap).
    assert (isBlank (csvRow headers obj) = false) as ->.
    { apply isBlank_comma. rewrite csvRow_cells. fold cells.
      destruct cells as [|x [|y l]]; [cbn in Hcells; lia..|].
      rewrite !fmap_cons. apply join_two_comma. }
    assert (splitCsvRow (csvRow headers obj) = cells) as ->.
    { rewrite csvRow_cells. apply csv_cells_split, two_not_single. fold cells. lia. }
    rewrite Hcells, Nat.eqb_refl. cbn [negb]. rewrite IH by done. cbn [data errors].
    subst cells. rewrite rowObject_readBack by done. by rewrite <-app_assoc.
Qed.

(** X5. Reading back what was written.  Take objects written by
    [simpleCsvUnparse] under at least two distinct headers that are trimmed
    and free of commas, quote characters and line breaks, with cells free
    of line breaks, and a text that trimming leaves unchanged.  Then
    [robustCsvParse] returns, without an error, one row per object, in
    order, holding under every header the text of the object's value (the
    empty text for [null], [undefined] and missing values). *)
Theorem X5_written_file_reads_back (first : JsObject) (rest : list JsObject) :
  let data := first :: rest in
  let headers := keys first in
  let text := simpleCsvUnparse data in
  (2 ≤ length headers)%nat →
  NoDup headers →
  Forall (λ header, without "," header ∧ without dquote header ∧ without "013" header
                    ∧ without "010" header ∧ trim header = header) headers →
  Forall (λ obj, Forall (λ header, without "013" (default "" (get obj header))
                                   ∧ without "010" (default "" (get obj header))) headers)
    data →
  trim text = text →
  robustCsvParse text
  = {| Csv.data := readBack headers <$> data; errors := [] |}.
Proof.
  intros data headers text Hlen Hnd Hheaders Hcells Htrim.
  assert (text = join newline (join "," headers :: (csvRow headers <$> data))) as Htext by done.
  set (lines := join "," headers :: (csvRow headers <$> data)) in *.
  assert (∀ c, Ascii.eqb dquote c = false → includes c "," = false →
            Forall (without c) headers →
            Forall (λ obj, Forall (λ header, without c (default "" (get obj header))) headers)
              data →
            Forall (without c) lines) as Hlines.
  { intros c Hq Hc Hh Hd. subst lines. constructor; [by apply includes_join|].
    apply Forall_fmap. eapply Forall_impl; [exact Hd|]. intros obj Hobj. cbn.
    unfold without. rewrite csvRow_cells. apply includes_join; [done|].
    rewrite <-list_fmap_compose. apply Forall_fmap. eapply Forall_impl; [exact Hobj|].
    intros h Hv. cbn. unfold without. by rewrite includes_csvCell. }
  assert (Forall (without "013") lines) as Hcr.
  { apply Hlines; [done|done| |].
    - eapply Forall_impl; [exact Hheaders|]. by intros h (_ & _ & ? & _).
    - eapply Forall_impl; [exact Hcells|]. intros obj Hobj.
      eapply Forall_impl; [exact Hobj|]. by intros h [? _]. }
  assert (Forall (without "010") lines) as Hlf.
  { apply Hlines; [done|done| |].
    - eapply Forall_impl; [exact Hheaders|]. by intros h (_ & _ & _ & ? & _).
    - eapply Forall_impl; [exact Hcells|]. intros obj Hobj.
      eapply Forall_impl; [exact Hobj|]. by intros h [_ ?]. }
  assert (csvLines text = lines) as Hsplit.
  { unfold csvLines. rewrite Htrim, Htext, removeCR_id by (by apply includes_join).
    by apply splitLines_join. }
  assert (trim <$> splitCsvRow (join "," headers) = headers) as Hheader.
  { assert (csvCell <$> headers = headers) as Hplain.
    { apply list_eq. intros i. rewrite list_lookup_fmap.
      destruct (headers !! i) as [h|] eqn:Hi; [|done]. cbn. f_equal.
      eapply Forall_lookup_1 in Hheaders as (? & ? & _); [|exact Hi]. by apply csvCell_plain. }
    rewrite <-Hplain at 1. rewrite csv_cells_split by (by apply two_not_single).
    apply list_eq. intros i. rewrite list_lookup_fmap.
    destruct (headers !! i) as [h|] eqn:Hi; [|done]. cbn. f_equal.
    by eapply Forall_lookup_1 in Hheaders as (_ & _ & _ & _ & ?); [|exact Hi]. }
  unfold robustCsvParse. rewrite Hsplit. subst lines data. rewrite fmap_cons.
  cbv beta iota. rewrite Hheader, <-fmap_cons. by rewrite parseLines_written.
Qed.

End RoundTripFacts.

(** ** The alias pass *)

Section AliasFacts.
Import Normalizer.

(** The last active alias, one table entry at a time. *)
Lemma last_activeAliases_cons row c e table :
  last (activeAliases row c (e :: table))
  = match last (activeAliases row c table) with
    | Some x => Some x
    | None => if String.eqb e.2 c && truthy (row !! e.1) then Some e else None
    end.
Proof.
  unfold activeAliases. rewrite filter_cons.
  destruct (String.eqb_spec e.2 c) as [Ec|Ec], (truthy (row !! e.1)) eqn:Et; cbn [andb].
  - rewrite decide_True by done. rewrite last_cons. by destruct (last _).
  - rewrite decide_False by (by intros [_ ?]). by destruct (last _).
  - rewrite decide_False by (by intros [? _]). by destruct (last _).
  - rewrite decide_False by (by intros [? _]). by destruct (last _).
Qed.

Lemma renameRow_lookup row c :
  renameRow row !! c =
  match last (activeAliases row c renamedCols) with
  | Some e => row !! e.1
  | None => row !! c
  end.
Proof. apply rename_fold_lookup. Qed.

(** A field some alias fills is non-empty after the pass. *)
Lemma renameRow_filled row c :
  last (activeAliases row c renamedCols) ≠ None → truthy (renameRow row !! c) = true.
Proof.
  intros Hne. rewrite renameRow_lookup.
  destruct (last (activeAliases row c renamedCols)) as [e|] eqn:El; [|done].
  assert (e ∈ activeAliases row c renamedCols) as He.
  { apply last_Some in El as [l' ->]. apply elem_of_app. right. left. }
  by apply list_elem_of_filter in He as [[_ ?] _].
Qed.

Ltac alias_table :=
  unfold renamedCols; rewrite !last_activeAliases_cons;
  change (last (activeAliases _ _ [])) with (@None (string * string));
  cbn [fst snd String.eqb Ascii.eqb Bool.eqb andb].

(** A column that is no canonical field is left as it is. *)
Lemma renameRow_other row c :
  c ≠ "Project" → c ≠ "Estimated Hours" → c ≠ "DueDate" → c ≠ "StartDate" →
  c ≠ "Value" → c ≠ "Store" →
  last (activeAliases row c renamedCols) = None.
Proof.
  intros H1 H2 H3 H4 H5 H6. unfold renamedCols. rewrite !last_activeAliases_cons.
  cbn [fst snd].
  rewrite (proj2 (String.eqb_neq "Project" c)), (proj2 (String.eqb_neq "Estimated Hours" c)),
    (proj2 (String.eqb_neq "DueDate" c)), (proj2 (String.eqb_neq "StartDate" c)),
    (proj2 (String.eqb_neq "Value" c)), (proj2 (String.eqb_neq "Store" c)) by done.
  done.
Qed.

(** X6. The alias pass of [loadAndCleanData] is idempotent: a row that has
    been through the pass is left unchanged by a second pass. *)
Theorem X6_alias_pass_idempotent (row : gmap string string) :
  renameRow (renameRow row) = renameRow row.
Proof.
  apply map_eq. intros c. rewrite (renameRow_lookup (renameRow row)).
  assert (∀ k, k ≠ "Project" → k ≠ "Estimated Hours" → k ≠ "DueDate" → k ≠ "StartDate" →
               k ≠ "Value" → k ≠ "Store" → renameRow row !! k = row !! k) as Hother.
  { intros k H1 H2 H3 H4 H5 H6. by rewrite renameRow_lookup, renameRow_other. }
  assert (renameRow row !! "Game" = row !! "Game") as EGame by (by apply Hother).
  assert (renameRow row !! "Expected Hours" = row !! "Expected Hours") as EExp
    by (by apply Hother).
  assert (renameRow row !! "Labor Time" = row !! "Labor Time") as ELab by (by apply Hother).
  assert (renameRow row !! "Due Date" = row !! "Due Date") as EDue by (by apply Hother).
  assert (renameRow row !! "Start Date" = row !! "Start Date") as EStart by (by apply Hother).
  destruct (decide (c = "Project")) as [->|].
  { pose proof (renameRow_filled row "Project") as Hfill. revert Hfill.
    alias_table. rewrite EGame.
    destruct (truthy (row !! "Game")), (truthy (renameRow row !! "Project")); try done.
    intros Hfill. discriminate Hfill. by destruct (truthy (row !! "Project")). }
  destruct (decide (c = "Estimated Hours")) as [->|].
  { pose proof (renameRow_filled row "Estimated Hours") as Hfill. revert Hfill.
    alias_table. rewrite EExp, ELab.
    destruct (truthy (row !! "Expected Hours")), (truthy (row !! "Labor Time")),
             (truthy (renameRow row !! "Estimated Hours")); try done;
      intros Hfill; discriminate Hfill; by destruct (truthy (row !! "Estimated Hours")). }
  destruct (decide (c = "DueDate")) as [->|].
  { alias_table. rewrite EDue. rewrite (renameRow_lookup row "DueDate"). alias_table.
    by destruct (truthy (row !! "Due Date")). }
  destruct (decide (c = "StartDate")) as [->|].
  { alias_table. rewrite EStart. rewrite (renameRow_lookup row "StartDate"). alias_table.
    by destruct (truthy (row !! "Start Date")). }
  destruct (decide (c = "Value")) as [->|].
  { alias_table. by destruct (truthy (renameRow row !! "Value")). }
  destruct (decide (c = "Store")) as [->|].
  { alias_table. by destruct (truthy (renameRow row !! "Store")). }
  by rewrite renameRow_other.
Qed.

End AliasFacts.

(** ** Uploads and the project list *)

Section ProjectListFacts.
Import Normalizer ProjectList.

Variable newDate : string → option Z.
Variable localeCompare : string → string → Z.

Lemma handleFileChange_tasks fileName csvText st :
  let cleaned := cleanRows newDate (Csv.data (Csv.robustCsvParse csvText)) in
  let st' := handleFileChange newDate localeCompare fileName csvText st in
  (cleaned ≠ [] ∧ (∀ n, ¬ collides newDate csvText st n)
   ∧ projectTasks st' = projectTasks st ++ cleaned
   ∧ projectFileName st' = fileName
   ∧ error st' = match Csv.errors (Csv.robustCsvParse csvText) with
                 | [] => ""
                 | _ :: _ => "CSV file '" +:+ fileName +:+ "' has issues."
                 end)
  ∨ ((cleaned = [] ∨ ∃ n, collides newDate csvText st n)
     ∧ projectTasks st' = projectTasks st
     ∧ projectFileName st' = projectFileName st).
Proof.
  intros cleaned st'. subst st' cleaned. unfold handleFileChange. cbv zeta.
  unfold collides, incomingNames.
  generalize (Csv.robustCsvParse csvText). intros results.
  set (st1 := match Csv.errors results with [] => _ | _ => _ end).
  assert (projectTasks st1 = projectTasks st ∧ projectFileName st1 = projectFileName st
          ∧ error st1 = match Csv.errors results with
                        | [] => ""
                        | _ :: _ => "CSV file '" +:+ fileName +:+ "' has issues."
                        end) as (Ht1 & Hf1 & He1).
  { subst st1. destruct (Csv.errors results); [done|].
    cbn [setError projectTasks projectFileName error].
    rewrite (fold_addLog_tasks (λ err, _)). split; [done|]. split; [|done].
    change (projectFileName st) with (projectFileName (setError "" st)).
    generalize (setError "" st). generalize (c :: l). clear.
    intros l. induction l as [|e l IH]; intros s; [done|]. cbn [fold_left]. by rewrite IH. }
  clearbody st1. unfold loadAndCleanData.
  destruct (Csv.data results) as [|d ds] eqn:Ed.
  { right. cbn. auto. }
  destruct (cleanRows newDate (d :: ds)) as [|c cs] eqn:Ec.
  { right. cbn. auto. }
  set (st2 := addLog _ (addLog _ st1)).
  assert (∀ m, m ∈ duplicateNames localeCompare (c :: cs) st2
               ↔ m ∈ (λ t, default "" (Project t)) <$> (c :: cs) ∧ m ∈ loadedNames st)
    as Hdup.
  { intros m. rewrite (duplicateNames_elem newDate).
    - unfold loadedNames. subst st2. cbn [addLog projectTasks]. by rewrite Ht1.
    - intros r Hr. apply (cleanRows_project newDate r (d :: ds)). by rewrite Ec. }
  destruct (duplicateNames localeCompare (c :: cs) st2) as [|x xs] eqn:Ex.
  - left. split; [done|]. split.
    { intros n Hn. apply Hdup in Hn. by apply elem_of_nil in Hn. }
    destruct (Csv.errors results);
      cbn [setError setProjectFileName setProjectTasks projectTasks projectFileName error];
      subst st2; cbn [addLog projectTasks error]; rewrite ?Ht1, ?He1; done.
  - right. split; [right; exists x; apply Hdup; left|].
    cbn [setError projectTasks projectFileName]. subst st2. cbn [addLog projectTasks projectFileName].
    by rewrite Ht1, Hf1.
Qed.


Lemma filter_all {A} (P : A → Prop) `{∀ x, Decision (P x)} (l : list A) :
  (∀ x, P x) → filter P l = l.
Proof.
  intros HP. induction l as [|x l IH]; [done|]. rewrite filter_cons_True by done.
  by rewrite IH.
Qed.

Lemma removeAll_tasks names : ∀ st,
  projectTasks (fold_left (λ s n, handleRemoveProject n s) names st)
  = filter (λ t, Forall (λ n, Project t ≠ Some n) names) (projectTasks st).
Proof.
  induction names as [|n names IH]; intros st; cbn [fold_left].
  - symmetry. apply filter_all. intros; constructor.
  - rewrite IH. cbn [handleRemoveProject setProjectTasks projectTasks].
    rewrite list_filter_filter. apply list_filter_iff. intros t.
    rewrite Forall_cons. tauto.
Qed.

(** X8. Removing, with [handleRemoveProject], a list of projects that
    includes every name on which an upload collides removes the tasks of
    the listed projects and no other, and the upload then goes through: the
    cleaned batch is appended to the tasks that remain. *)
Theorem X8_remove_then_upload (fileName csvText : string) (st : AppState)
    (names : list string) :
  (∀ n, collides newDate csvText st n → n ∈ names) →
  let st1 := fold_left (λ s n, handleRemoveProject n s) names st in
  projectTasks st1
    = filter (λ t, Forall (λ n, Project t ≠ Some n) names) (projectTasks st)
  ∧ projectTasks (handleFileChange newDate localeCompare fileName csvText st1)
    = projectTasks st1 ++ cleanRows newDate (Csv.data (Csv.robustCsvParse csvText)).
Proof.
  intros Hnames st1. split; [apply removeAll_tasks|].
  pose proof (handleFileChange_tasks fileName csvText st1) as H. cbv zeta in H.
  destruct H as [(_ & _ & Ht & _)|([E|[n [Hin Hld]]] & Ht & _)]; [done|by rewrite E, app_nil_r|].
  exfalso. unfold loadedNames in Hld. subst st1. rewrite removeAll_tasks in Hld.
  apply list_elem_of_omap in Hld as (t & [Hall Ht']%list_elem_of_filter & Hn).
  assert (n ∈ names) as Hn'.
  { apply Hnames. split; [done|]. unfold loadedNames. apply list_elem_of_omap. eauto. }
  eapply Forall_forall in Hall; [|exact Hn']. done.
Qed.

Lemma sortInsert_fmap {A} (cmp : A → A → Z) (g : A → A) x l :
  (∀ a b, cmp (g a) (g b) = cmp a b) →
  sortInsert cmp (g x) (g <$> l) = g <$> sortInsert cmp x l.
Proof.
  intros Hg. induction l as [|y l IH]; [done|]. cbn [fmap list_fmap sortInsert].
  rewrite Hg. destruct (cmp x y <=? 0); [done|]. cbn [fmap list_fmap]. f_equal. apply IH.
Qed.

Lemma sortBy_fmap {A} (cmp : A → A → Z) (g : A → A) l :
  (∀ a b, cmp (g a) (g b) = cmp a b) →
  sortBy cmp (g <$> l) = g <$> sortBy cmp l.
Proof.
  intros Hg. unfold sortBy. induction l as [|x l IH]; [done|]. cbn [fmap list_fmap foldr].
  rewrite IH. by apply sortInsert_fmap.
Qed.

(** X9. [handleProjectStoreChange] shows in the project list as a change
    of store of that one project; the other entries and the order of the
    list stay as they are. *)
Theorem X9_store_change_shown (projectName newStore : string) (st : AppState) :
  let st' := handleProjectStoreChange projectName newStore st in
  builtProjects localeCompare (projectTasks st')
  = (λ b, if decide (name b = projectName)
          then {| name := name b; store := newStore |} else b)
      <$> builtProjects localeCompare (projectTasks st).
Proof.
  intros st'. subst st'. cbn [handleProjectStoreChange setProjectTasks projectTasks].
  set (f := λ task, if decide (Project task = Some projectName)
                    then withStore newStore task else task).
  set (g := λ b, if decide (name b = projectName)
                 then {| name := name b; store := newStore |} else b).
  assert (∀ b, name (g b) = name b) as Hname.
  { intros b. unfold g. by case_decide. }
  unfold builtProjects. rewrite <-sortBy_fmap by (intros; by rewrite !Hname). f_equal.
  change [] with (g <$> []) at 1. generalize (@nil BuiltProject).
  induction (projectTasks st) as [|t tasks IH]; intros acc; [done|].
  cbn [fmap list_fmap builtProjectsAcc].
  assert (Project (f t) = Project t) as ->.
  { unfold f. by case_decide. }
  rewrite <-list_fmap_compose.
  rewrite (list_fmap_ext (name ∘ g) name acc) by (intros; apply Hname).
  destruct (truthy (Project t) && negb (bool_decide (default "" (Project t) ∈ name <$> acc)))
    eqn:E; [|apply IH].
  rewrite <-IH, fmap_app. f_equal. f_equal. cbn [fmap list_fmap]. f_equal.
  apply andb_true_iff in E as [T _]. destruct (Project t) as [p|] eqn:Ep; [|done].
  cbn [default]. unfold g, f, id. cbn [name]. rewrite Ep.
  destruct (decide (p = projectName)) as [->|Hp].
  - by rewrite !decide_True.
  - by rewrite !decide_False by congruence.
Qed.



End ProjectListFacts.

Section IngestionExamples.
Import JsDate Csv Normalizer CsvExport.

(** A row with a comma, a quote character and a [null] in its cells. *)
Lemma X1_witness :
  splitCsvRow
    (csvRow exportedHeaders
       [ ("Project", Some "Job-1"); ("SKU Name", Some "Bolt, steel");
         ("Note", Some ("3/4" +:+ String dquote " thread")); ("Store", None) ])
  = [ "Job-1"; "Bolt, steel"; "3/4" +:+ String dquote " thread"; "" ].
Proof.
  apply (X1_written_row_splits_back exportedHeaders
           [ ("Project", Some "Job-1"); ("SKU Name", Some "Bolt, steel");
             ("Note", Some ("3/4" +:+ String dquote " thread")); ("Store", None) ]).
  discriminate.
Defined.

(** A row with an empty cell in the middle and one at the end. *)
Lemma X2_witness : join "," (splitCsvRow "Job-1,,Bolt steel,") = "Job-1,,Bolt steel,".
Proof. apply X2_plain_row_joins_back. reflexivity. Defined.


(** The two exported tasks read back. *)
Lemma X5_witness :
  robustCsvParse (simpleCsvUnparse exportedTasks)
  = {| Csv.data := readBack exportedHeaders <$> exportedTasks; errors := [] |}.
Proof.
  apply (X5_written_file_reads_back
           [ ("Project", Some "Job-1"); ("SKU Name", Some "Bolt, steel");
             ("Note", Some ("3/4" +:+ String dquote " thread")); ("Store", None) ]
           [ [ ("Project", Some "Job-2"); ("SKU Name", Some "Panel");
               ("Store", Some "Store-B") ] ]).
  - cbn. lia.
  - apply (bool_decide_unpack _). vm_compute. exact I.
  - repeat (constructor; [repeat split; reflexivity|]). constructor.
  - repeat (constructor; [repeat (constructor; [split; reflexivity|]); constructor|]).
    constructor.
  - vm_compute. reflexivity.
Defined.

(** The second upload of the duplicate-upload example goes through once
    Job-001 has been removed. *)
Lemma X8_witness :
  let upload := handleFileChange (RefHost.newDate 0) RefHost.localeCompare in
  let st := upload "first.csv" csvJob001 initialState in
  let st1 := fold_left (λ s n, ProjectList.handleRemoveProject n s) ["Job-001"] st in
  projectTasks st1 = []
  ∧ (λ t, default "" (Project t)) <$> projectTasks (upload "second.csv" csvJob001And002 st1)
    = ["Job-002"; "Job-001"].
Proof.
  intros upload st st1.
  destruct (X8_remove_then_upload (RefHost.newDate 0) RefHost.localeCompare
              "second.csv" csvJob001And002 st ["Job-001"]) as [Hremoved Hadded].
  - intros n [_ Hn].
    assert (loadedNames st = ["Job-001"]) as E by (vm_compute; reflexivity).
    by rewrite E in Hn.
  - split; [vm_compute; reflexivity|]. subst upload st1. rewrite Hadded.
    vm_compute. reflexivity.
Defined.

End IngestionExamples.

(** ** Order of the summaries *)

Section OrderFacts.
Context {A : Type} (cmp : A → A → Z).
Hypothesis cmp_consistent : consistent cmp.

Lemma sortInsert_ordered x l :
  ordered (λ a b, cmp a b ≤ 0) l → ordered (λ a b, cmp a b ≤ 0) (sortInsert cmp x l).
Proof.
  destruct cmp_consistent as [Hanti Htrans].
  induction l as [|y l IH]; intros Hl; cbn [sortInsert].
  - by split.
  - destruct Hl as [Hy Hl]. destruct (Z.leb_spec (cmp x y) 0) as [Hxy|Hxy].
    + split; [|by split]. constructor; [done|].
      eapply Forall_impl; [exact Hy|]. intros z Hz. by eapply Htrans.
    + split; [|by apply IH]. rewrite sortInsert_perm. constructor; [|done].
      pose proof (Hanti x y). lia.
Qed.

Lemma sortBy_ordered l : ordered (λ a b, cmp a b ≤ 0) (sortBy cmp l).
Proof.
  unfold sortBy. induction l as [|x l IH]; cbn [foldr]; [done|].
  by apply sortInsert_ordered.
Qed.

End OrderFacts.

Lemma ordered_impl {A} (R R' : A → A → Prop) l :
  (∀ a b, R a b → R' a b) → ordered R l → ordered R' l.
Proof.
  intros HR. induction l as [|x l IH]; [done|]. intros [Hx Hl]. split; [|by apply IH].
  eapply Forall_impl; [exact Hx|]. auto.
Qed.

Section SummaryFacts.
Import JsDate Aggregation.

Variable newDate : string → option Z.
Variable localeCompare : string → string → Z.
Variable endDateOverrides : gmap string string.

Lemma compareSummaries_consistent :
  consistent localeCompare → consistent (compareSummaries localeCompare).
Proof.
  intros [Hanti Htrans].
  assert (∀ a b : string, localeCompare a b = 0 → localeCompare b a = 0) as Heq.
  { intros a b H. pose proof (Hanti a b). lia. }
  assert (∀ a b c : string, localeCompare a b ≤ 0 → localeCompare b c ≤ 0 →
            localeCompare a c = 0 → localeCompare a b = 0 ∧ localeCompare b c = 0) as Hmid.
  { intros a b c Hab Hbc Hac. pose proof (Heq _ _ Hac) as Hca.
    assert (localeCompare c b ≤ 0) by (eapply Htrans; [|exact Hab]; lia).
    assert (localeCompare b a ≤ 0) by (eapply Htrans; [exact Hbc|]; lia).
    pose proof (Hanti a b). pose proof (Hanti b c). lia. }
  split.
  - intros a b. unfold compareSummaries.
    pose proof (Hanti (Store (row a)) (Store (row b))).
    pose proof (Hanti (Project (row a)) (Project (row b))).
    destruct (Z.eqb_spec (localeCompare (Store (row a)) (Store (row b))) 0),
             (Z.eqb_spec (localeCompare (Store (row b)) (Store (row a))) 0); lia.
  - intros a b c. unfold compareSummaries.
    pose proof (Htrans (Store (row a)) (Store (row b)) (Store (row c))) as Hs.
    pose proof (Htrans (Project (row a)) (Project (row b)) (Project (row c))) as Hp.
    pose proof (Hmid (Store (row a)) (Store (row b)) (Store (row c))) as Hm.
    destruct (Z.eqb_spec (localeCompare (Store (row a)) (Store (row b))) 0),
             (Z.eqb_spec (localeCompare (Store (row b)) (Store (row c))) 0),
             (Z.eqb_spec (localeCompare (Store (row a)) (Store (row c))) 0); lia.
Qed.

(** X11. With a consistent [localeCompare], the project summary list is a
    rearrangement of the summaries of the rows in which every entry comes
    before all later ones by store, and by project name within a store; in
    the store summary list every entry comes before all later ones by
    store. *)
Theorem X11_summaries_ordered (rows : list ProjectRow) :
  consistent localeCompare →
  let project := projectSummaryList newDate localeCompare endDateOverrides rows in
  let store := storeSummaryList newDate localeCompare endDateOverrides project in
  ordered (λ a b, localeCompare (Store (row a)) (Store (row b)) < 0
                  ∨ (localeCompare (Store (row a)) (Store (row b)) = 0
                     ∧ localeCompare (Project (row a)) (Project (row b)) ≤ 0)) project
  ∧ project ≡ₚ summarize newDate endDateOverrides <$> rows
  ∧ ordered (λ a b, localeCompare (sStore a) (sStore b) ≤ 0) store.
Proof.
  intros Hc project store. split; [|split].
  - eapply ordered_impl; [|apply sortBy_ordered, compareSummaries_consistent, Hc].
    intros a b. cbn beta. unfold compareSummaries.
    destruct (Z.eqb_spec (localeCompare (Store (row a)) (Store (row b))) 0); lia.
  - apply sortBy_perm.
  - apply sortBy_ordered. destruct Hc as [Hanti Htrans]. split.
    + intros a b. apply Hanti.
    + intros a b c. apply Htrans.
Qed.

Lemma roundDiv_sign a b :
  0 < b → (0 ≤ a → 0 ≤ roundDiv a b) ∧ (a < 0 → roundDiv a b ≤ 0).
Proof.
  intros Hb. unfold roundDiv. split; intros Ha.
  - apply Z.div_pos; lia.
  - assert ((2 * a + b) / (2 * b) < 1); [|lia]. apply Z.div_lt_upper_bound; lia.
Qed.

(** X12. The sign of a store's variance: when every counted project of
    the store finished by its due date the variance is not negative, and
    when every counted project finished after its due date it is not
    positive. *)
Theorem X12_store_variance_sign (rows : list ProjectRow) (r : StoreSummary) :
  r ∈ storeSummaryList newDate localeCompare endDateOverrides
        (projectSummaryList newDate localeCompare endDateOverrides rows) →
  ((∀ p s f d, p ∈ rows → Store p = sStore r →
      rowDates newDate endDateOverrides p = Some (s, f, d) → f ≤ d) →
   0 ≤ sDaysVariance r)
  ∧ ((∀ p s f d, p ∈ rows → Store p = sStore r →
        rowDates newDate endDateOverrides p = Some (s, f, d) → d < f) →
     sDaysVariance r ≤ 0).
Proof.
  intros (t & Ht & Hr)%storeSummary_elem.
  assert (sDaysVariance r = roundDiv (t.2 - t.1.2) msPerDay) as -> by (by rewrite Hr).
  destruct (rollup_bounds _ _ Ht) as (Hall & _ & (x2 & Hx2 & E2) & (x3 & Hx3 & E3)).
  assert (∀ x, x ∈ storeDates newDate endDateOverrides rows (sStore r) →
            ∃ p, p ∈ rows ∧ Store p = sStore r
                 ∧ rowDates newDate endDateOverrides p = Some x) as Hsrc.
  { intros x (p & Hp & Hx)%list_elem_of_omap. case_decide; [|done]. eauto. }
  assert (0 < msPerDay) as Hday by done.
  split; intros Hrows.
  - apply roundDiv_sign; [done|].
    destruct (Hsrc x2 Hx2) as (p & Hp & Hs & Hd). destruct x2 as [[s f] d].
    specialize (Hrows p s f d Hp Hs Hd). specialize (Hall _ Hx2). cbn [fst snd] in *. lia.
  - apply roundDiv_sign; [done|].
    destruct (Hsrc x3 Hx3) as (p & Hp & Hs & Hd). destruct x3 as [[s f] d].
    specialize (Hrows p s f d Hp Hs Hd). specialize (Hall _ Hx3). cbn [fst snd] in *. lia.
Qed.

End SummaryFacts.

(** ** Routing data and template boxes *)

Section BuilderFacts.
Import Normalizer Builder.

Lemma setOf_elem {A} `{EqDecision A} (x : A) l : ∀ seen,
  x ∈ setOf seen l ↔ x ∈ l ∧ x ∉ seen.
Proof.
  induction l as [|y l IH]; intros seen; cbn [setOf].
  - split; [by intros ?%elem_of_nil|by intros [?%elem_of_nil _]].
  - case_bool_decide as Hy.
    + rewrite IH, elem_of_cons. split; [tauto|].
      intros [[->|?] ?]; tauto.
    + rewrite !elem_of_cons, IH, elem_of_cons.
      destruct (decide (x = y)) as [->|]; [tauto|]. split; [tauto|].
      intros [[?|?] ?]; [done|]. right. split; [done|]. intros [?|?]; done.
Qed.

Lemma setOf_NoDup {A} `{EqDecision A} (l : list A) : ∀ seen, NoDup (setOf seen l).
Proof.
  induction l as [|y l IH]; intros seen; cbn [setOf]; [constructor|].
  case_bool_decide; [apply IH|]. constructor; [|apply IH].
  rewrite setOf_elem. intros [_ Hy]. apply Hy. left.
Qed.

Lemma setOf_NoDup_id {A} `{EqDecision A} (l : list A) : ∀ seen,
  NoDup l → (∀ x, x ∈ l → x ∉ seen) → setOf seen l = l.
Proof.
  induction l as [|y l IH]; intros seen Hnd Hs; cbn [setOf]; [done|].
  apply NoDup_cons in Hnd as [Hy Hnd].
  rewrite bool_decide_eq_false_2 by (apply Hs; left). f_equal. apply IH; [done|].
  intros x Hx [->|?]%elem_of_cons; [done|]. apply (Hs x); [by right|done].
Qed.

(** X13. The routing filter keeps exactly the rows with a non-empty
    TemplateName, SKU, SKU Name and Operation, in order, each coerced.  An
    Order, Estimated Hours or Value that is missing or unreadable never
    removes a row: NaN and 0 pass the three comparisons of the filter. *)
Theorem X13_routing_rows_kept (data : list (gmap string string)) :
  cleanRoutingData data
  = coerceRoutingRow
      <$> filter (λ row, truthy (row !! "TemplateName") = true ∧ truthy (row !! "SKU") = true
                         ∧ truthy (row !! "SKU Name") = true
                         ∧ truthy (row !! "Operation") = true) data.
Proof.
  unfold cleanRoutingData. induction data as [|row data IH]; [done|].
  cbn [fmap list_fmap]. rewrite !filter_cons, IH.
  assert (forallb (λ col, given (column (coerceRoutingRow row) col)) requiredCols
          = truthy (row !! "TemplateName") && truthy (row !! "SKU")
            && truthy (row !! "SKU Name") && truthy (row !! "Operation")) as ->.
  { cbn [forallb requiredCols]. unfold column.
    cbn [String.eqb Ascii.eqb Bool.eqb rfields coerceRoutingRow]. cbn [given andb].
    destruct (row !! "TemplateName") as [a|], (row !! "SKU") as [b|],
             (row !! "SKU Name") as [c|], (row !! "Operation") as [d|];
      cbn [given truthy andb];
      repeat match goal with |- context [String.eqb ?x ""] => destruct (String.eqb x "") end;
      done. }
  case_decide as H1; case_decide as H2; try done.
  - exfalso. apply H2. by repeat (apply andb_true_iff in H1 as [H1 ?]).
  - exfalso. apply H1. destruct H2 as (E1 & E2 & E3 & E4). by rewrite E1, E2, E3, E4.
Qed.

Lemma toggle_elem t t' b :
  t' ∈ selectedTemplates (handleTemplateSelectionChange t b)
  ↔ if decide (t' = t) then t ∉ selectedTemplates b else t' ∈ selectedTemplates b.
Proof.
  unfold handleTemplateSelectionChange. cbn [selectedTemplates withSelection].
  assert (∀ x, x ∈ setOf [] (selectedTemplates b) ↔ x ∈ selectedTemplates b) as Hset.
  { intros x. rewrite setOf_elem. split; [tauto|]. intros ?. split; [done|apply not_elem_of_nil]. }
  case_bool_decide as Ht; rewrite Hset in Ht.
  - rewrite list_elem_of_filter, Hset. case_decide as E; [subst|]; tauto.
  - rewrite elem_of_app, Hset, list_elem_of_singleton. case_decide as E; [subst|]; tauto.
Qed.

Lemma toggle_NoDup t b : NoDup (selectedTemplates (handleTemplateSelectionChange t b)).
Proof.
  unfold handleTemplateSelectionChange. cbn [selectedTemplates withSelection].
  pose proof (setOf_NoDup (selectedTemplates b) []) as Hnd.
  case_bool_decide as Ht.
  - by apply NoDup_filter.
  - apply NoDup_app. split; [done|]. split; [|apply NoDup_singleton].
    intros x Hx ->%list_elem_of_singleton. done.
Qed.

Lemma projectTemplates_NoDup routingData : NoDup (projectTemplates routingData).
Proof.
  unfold projectTemplates. eapply NoDup_Permutation_proper; [apply sortBy_perm|].
  apply setOf_NoDup.
Qed.

(** X14. Starting from an empty selection and acting only on boxes the
    builder shows: toggling a template flips its box and no other, the
    selection never holds a template twice, every checked template is an
    available one, and the select-all box is checked exactly when there are
    templates and all their boxes are checked. *)
Theorem X14_template_boxes (routingData : list RoutingRow) (b0 : BuilderState)
    (actions : list SelectionAction) :
  selectedTemplates b0 = [] →
  Forall (shown (projectTemplates routingData)) actions →
  let templates := projectTemplates routingData in
  let b := fold_left (act templates) actions b0 in
  (∀ t t', templateChecked t' (handleTemplateSelectionChange t b)
           = if decide (t' = t) then negb (templateChecked t b) else templateChecked t' b)
  ∧ NoDup (selectedTemplates b)
  ∧ (∀ t, templateChecked t b = true → t ∈ templates)
  ∧ (selectAllChecked templates b = true
     ↔ templates ≠ [] ∧ ∀ t, t ∈ templates → templateChecked t b = true).
Proof.
  intros Hb0 Hshown templates b.
  assert (NoDup (selectedTemplates b) ∧ ∀ t, t ∈ selectedTemplates b → t ∈ templates)
    as [Hnd Hsub].
  { subst b. revert b0 Hb0 Hshown.
    assert (∀ b0, (NoDup (selectedTemplates b0)
                   ∧ ∀ t, t ∈ selectedTemplates b0 → t ∈ templates) →
              Forall (shown templates) actions →
              NoDup (selectedTemplates (fold_left (act templates) actions b0))
              ∧ ∀ t, t ∈ selectedTemplates (fold_left (act templates) actions b0)
                     → t ∈ templates) as Hinv.
    { induction actions as [|a actions IH]; intros b0 Hb0 Hall; [done|].
      apply Forall_cons in Hall as [Ha Hall]. cbn [fold_left]. apply IH; [|done].
      destruct Hb0 as [Hnd Hsub]. destruct a as [t|checked]; cbn [act shown] in *.
      - split; [apply toggle_NoDup|]. intros t' Ht'. apply toggle_elem in Ht'.
        case_decide; [by subst|by apply Hsub].
      - unfold handleSelectAllTemplates. cbn [selectedTemplates withSelection].
        destruct checked; [|split; [constructor|by intros ? ?%elem_of_nil]].
        split; [apply projectTemplates_NoDup|done]. }
    intros b0 Hb0 Hall. apply Hinv; [|done]. rewrite Hb0.
    split; [constructor|by intros ? ?%elem_of_nil]. }
  split; [|split; [done|split]].
  - intros t t'. unfold templateChecked.
    destruct (decide (t' = t)) as [->|Hne].
    + pose proof (toggle_elem t t b) as H. rewrite decide_True in H by done.
      case_bool_decide as H1; case_bool_decide as H2; cbn [negb]; tauto.
    + pose proof (toggle_elem t t' b) as H. rewrite decide_False in H by done.
      case_bool_decide as H1; case_bool_decide as H2; tauto.
  - intros t Ht. apply Hsub. by apply bool_decide_eq_true in Ht.
  - unfold selectAllChecked, templateChecked. rewrite andb_true_iff, Nat.ltb_lt, Nat.eqb_eq.
    assert (selectedTemplates b ⊆+ templates) as Hsm by (by apply NoDup_submseteq).
    split.
    + intros [Hpos Hlen]. split; [by intros E; rewrite E in Hpos; cbn in Hpos; lia|].
      intros t Ht. apply bool_decide_eq_true.
      assert (selectedTemplates b ≡ₚ templates) as Hperm
        by (apply submseteq_length_Permutation; [done|lia]).
      by rewrite Hperm.
    + intros [Hne Hall]. split; [destruct templates; [done|cbn; lia]|].
      apply Permutation_length, NoDup_Permutation; [done|apply projectTemplates_NoDup|].
      intros t. split; [apply Hsub|]. intros Ht. specialize (Hall t Ht).
      by apply bool_decide_eq_true in Hall.
Qed.

End BuilderFacts.

(** ** Projects added from the builder *)

Section ProjectBuilderFacts.
Import Normalizer Builder ProjectBuilder.

Variable newDate : string → option Z.
Variable localeCompare : string → string → Z.
Variable routingData : list RoutingRow.

Lemma drawName_fresh template draws current n draws' :
  drawName template draws current = Some (n, draws') → (n ∉ current) ∧ n ≠ "".
Proof.
  induction draws as [|r draws IH]; [done|]. cbn [drawName].
  case_bool_decide as Hin; [exact IH|]. intros [= <- <-]. split; [done|].
  destruct (templateText template); discriminate.
Qed.

Lemma drawName_first template r draws current :
  templateText template +:+ " #" +:+ pretty r ∉ current →
  drawName template (r :: draws) current
  = Some (templateText template +:+ " #" +:+ pretty r, draws).
Proof. intros H. cbn [drawName]. by rewrite bool_decide_eq_false_2. Qed.

Lemma forEachTemplate_names store startDate dueDate templates : ∀ draws current newTasks result,
  forEachTemplate newDate routingData store startDate dueDate templates draws current newTasks
    = Some result →
  ∃ names, length names = length templates
    ∧ NoDup names
    ∧ (∀ n, n ∈ names → (n ∉ current) ∧ n ≠ "")
    ∧ result = newTasks
        ++ concat (zip_with (λ t n, tasksForProject newDate routingData t n store startDate dueDate)
                     templates names).
Proof.
  induction templates as [|t templates IH]; intros draws current newTasks result; cbn [forEachTemplate].
  - intros [= <-]. exists []. rewrite app_nil_r.
    split; [done|]. split; [constructor|]. split; [by intros ? ?%elem_of_nil|done].
  - destruct (drawName t draws current) as [[n draws']|] eqn:Ed; [|done].
    intros (names & Hlen & Hnd & Hfresh & ->)%IH.
    apply drawName_fresh in Ed as [Ed Hne]. exists (n :: names). cbn [length zip_with concat].
    split; [by rewrite Hlen|]. split; [|split].
    + constructor; [|done]. intros Hn. destruct (Hfresh n Hn) as [Hc _]. apply Hc.
      apply elem_of_app. right. left.
    + intros m [->|Hm]%elem_of_cons; [done|]. destruct (Hfresh m Hm) as [Hc ?].
      split; [|done]. intros ?. apply Hc. apply elem_of_app. by left.
    + by rewrite <-app_assoc.
Qed.

Lemma forEachTemplate_returns store startDate dueDate templates : ∀ draws current newTasks,
  let names := zip_with (λ t r, templateText t +:+ " #" +:+ pretty r) templates draws in
  (length templates ≤ length draws)%nat →
  NoDup names →
  (∀ n, n ∈ names → n ∉ current) →
  forEachTemplate newDate routingData store startDate dueDate templates draws current newTasks
  = Some (newTasks
            ++ concat (zip_with (λ t n, tasksForProject newDate routingData t n store startDate dueDate)
                         templates names)).
Proof.
  induction templates as [|t templates IH]; intros draws current newTasks names Hlen Hnd Hfresh;
    cbn [forEachTemplate].
  - subst names. cbn. by rewrite app_nil_r.
  - destruct draws as [|r draws]; [cbn in Hlen; lia|]. subst names. cbn [zip_with] in *.
    apply NoDup_cons in Hnd as [Hr Hnd].
    rewrite drawName_first by (apply Hfresh; left).
    rewrite IH.
    + cbn [concat]. by rewrite <-app_assoc.
    + cbn in Hlen. lia.
    + done.
    + intros n Hn [?| ->%list_elem_of_singleton]%elem_of_app; [|done].
      apply (Hfresh n); [by right|done].
Qed.

(** X15. [handleAddProjectFromBuilder] only sets its error when no
    template is selected or a field is empty.  Otherwise, whenever it
    returns, it has appended the tasks of one project per selected
    template, under names that differ from each other and from every loaded
    project name, and has emptied the selection and the error; and it does
    return, with the names of the first draws, when those names are new and
    pairwise different. *)
Theorem X15_builder_names_are_new (draws : list Z) (b : BuilderState) (st : AppState) :
  let add := handleAddProjectFromBuilder newDate localeCompare routingData draws b st in
  let ready := selectedTemplates b ≠ [] ∧ store b ≠ "" ∧ startDate b ≠ "" ∧ dueDate b ≠ "" in
  let projects names :=
    concat (zip_with (λ t n, tasksForProject newDate routingData t n
                                (store b) (startDate b) (dueDate b))
              (selectedTemplates b) names) in
  (¬ ready →
     add = Some (b, setError "Please select at least one game and fill all fields in the Project Builder." st))
  ∧ (ready → ∀ b' st', add = Some (b', st') →
       ∃ names, length names = length (selectedTemplates b)
         ∧ NoDup names
         ∧ (∀ n task, n ∈ names → task ∈ projectTasks st → Project task ≠ Some n)
         ∧ projectTasks st' = projectTasks st ++ projects names
         ∧ selectedTemplates b' = [] ∧ error st' = "")
  ∧ (ready →
       let names := zip_with (λ t r, templateText t +:+ " #" +:+ pretty r)
                      (selectedTemplates b) draws in
       (length (selectedTemplates b) ≤ length draws)%nat →
       NoDup names →
       (∀ n task, n ∈ names → task ∈ projectTasks st → Project task ≠ Some n) →
       ∃ b' st', add = Some (b', st')
         ∧ projectTasks st' = projectTasks st ++ projects names).
Proof.
  intros add ready projects. subst add ready. unfold handleAddProjectFromBuilder.
  destruct (Nat.eqb (length (selectedTemplates b)) 0 || String.eqb (store b) ""
            || String.eqb (startDate b) "" || String.eqb (dueDate b) "") eqn:Hguard.
  - assert (¬ (selectedTemplates b ≠ [] ∧ store b ≠ "" ∧ startDate b ≠ "" ∧ dueDate b ≠ ""))
      as Hnot.
    { intros (H1 & H2 & H3 & H4). repeat (apply orb_true_iff in Hguard as [Hguard|Hguard]).
      - apply Nat.eqb_eq in Hguard. by destruct (selectedTemplates b).
      - by apply String.eqb_eq in Hguard.
      - by apply String.eqb_eq in Hguard.
      - by apply String.eqb_eq in Hguard. }
    split; [done|]. split; intros Hr; by destruct Hnot.
  - split.
    { intros Hnot. exfalso. apply Hnot.
      repeat (apply orb_false_iff in Hguard as [Hguard ?]).
      repeat split; try (by apply String.eqb_neq).
      intros E. by rewrite E in Hguard. }
    assert (∀ n, n ≠ "" →
              n ∉ name <$> builtProjects localeCompare (projectTasks st)
              ↔ ∀ task, task ∈ projectTasks st → Project task ≠ Some n) as Hex.
    { intros n Hn. rewrite builtProjects_names. split.
      - intros H task Ht E. apply H. eauto.
      - intros H (_ & task & Ht & E). by apply (H task). }
    split.
    + intros _ b' st'.
      destruct (forEachTemplate _ _ _ _ _ _ _ _ []) as [newTasks|] eqn:Ef; [|done].
      intros [= <- <-]. apply forEachTemplate_names in Ef as (names & Hlen & Hnd & Hfresh & ->).
      exists names. split; [done|]. split; [done|]. split; [|done].
      intros n task Hn Ht. destruct (Hfresh n Hn) as [Hc Hne].
      exact (proj1 (Hex n Hne) Hc task Ht).
    + intros _ Hlen Hnd Hfresh.
      rewrite (forEachTemplate_returns _ _ _ _ draws _ []); [eauto|done|done|].
      intros n Hn. apply Hex; [|by intros task; apply Hfresh].
      apply elem_of_zip_with in Hn as (t & r & -> & _).
      destruct (templateText t); discriminate.
Qed.

End ProjectBuilderFacts.

(** ** Date labels, drags and late marks *)

Section TimelineFacts.
Import JsDate Aggregation Gantt Timeline.

Variable tz : Z.
Variable newDate : string → option Z.

Lemma utcDay_local n h : 0 ≤ h < msPerDay → utcDay (n * msPerDay + h) = n.
Proof.
  intros Hh. unfold utcDay. rewrite Z.add_comm, Z.div_add by done.
  rewrite Z.div_small by done. lia.
Qed.

(** X16. For a date [h] milliseconds into local day [n],
    [formatDateForGantt] shows the month and day of [n] in every zone,
    while [formatDate] gives the ISO text of the UTC day
    [n + (h - tz) / msPerDay]; that is day [n] exactly when
    [tz ≤ h < tz + msPerDay]. *)
Theorem X16_label_and_iso_text (n h : Z) :
  0 ≤ h < msPerDay →
  let t := utc tz (n * msPerDay + h) in
  formatDateForGantt tz newDate (ArgDate (Some t))
    = (let '(_, month, day) := civil_from_days n in pretty month +:+ "/" +:+ pretty day)
  ∧ formatDate (Some t) = isoDate (n + (h - tz) / msPerDay)
  ∧ (formatDate (Some t) = isoDate n ↔ tz ≤ h < tz + msPerDay).
Proof.
  intros Hh t. subst t. assert (msPerDay = 86400000) as Hday by reflexivity.
  assert (utcDay (utc tz (n * msPerDay + h)) = n + (h - tz) / msPerDay) as Hutc.
  { unfold utcDay, utc. replace (n * msPerDay + h - tz) with (h - tz + n * msPerDay) by lia.
    rewrite Z.div_add by done. lia. }
  split; [|split].
  - cbn [formatDateForGantt]. unfold localTime, utc.
    replace (n * msPerDay + h - tz + tz) with (n * msPerDay + h) by lia.
    by rewrite utcDay_local.
  - cbn [formatDate]. by rewrite Hutc.
  - cbn [formatDate]. rewrite Hutc. split.
    + intros E%isoDate_inj.
      assert ((h - tz) / msPerDay = 0) as Hq by lia.
      apply Z.div_small_iff in Hq; lia.
    + intros Hz. rewrite Z.div_small by lia. by rewrite Z.add_0_r.
Qed.

Variable startDateOverrides : gmap string string.
Variable endDateOverrides : gmap string string.

Lemma dragMoves_none width range dayDeltas :
  dragMoves tz width range dayDeltas None = None.
Proof. unfold dragMoves. induction dayDeltas as [|d l IH]; [done|]. exact IH. Qed.

(** X17. What a drag reports on release, always for the dragged project:
    a move nothing or a start change followed by an end change, a resize of
    the start nothing or one start change, a resize of the end nothing or
    one end change.  Nothing is reported when the plan dates do not parse,
    when the chart has no width or no range, or when the pointer did not
    move. *)
Theorem X17_gesture_events (width : Z) (range : option (Z * Z)) (clientX : Z)
    (p : ProjectSummary) (ty : DragType) (dayDeltas : list Z) :
  let events := gesture tz newDate startDateOverrides endDateOverrides
                  width range clientX p ty dayDeltas in
  let projectId := Project (row p) in
  match ty with
  | Move => events = []
            ∨ ∃ s e, events = [StartDateChange projectId s; EndDateChange projectId e]
  | ResizeStart => events = [] ∨ ∃ s, events = [StartDateChange projectId s]
  | ResizeEnd => events = [] ∨ ∃ e, events = [EndDateChange projectId e]
  end
  ∧ (planDates newDate startDateOverrides endDateOverrides p = None → events = [])
  ∧ (moveAllowed width range = false → events = [])
  ∧ (dayDeltas = [] → events = []).
Proof.
  intros events projectId. subst events projectId. unfold gesture, handleMouseDown.
  destruct (planDates newDate startDateOverrides endDateOverrides p) as [[s f]|].
  2: { rewrite dragMoves_none. cbn. by destruct ty; auto. }
  rewrite dragMoves_last.
  set (ds0 := {| type := ty; project := p; startX := clientX; initialStartDate := s;
                 initialFinishDate := f; visualStartDate := s; visualFinishDate := f |}).
  assert (pressed ds0) as Hp by done.
  split; [|split; [done|split]].
  - set (ds' := match last dayDeltas with Some d => _ | None => _ end).
    assert (type ds' = ty ∧ project ds' = p) as [Hty Hpr].
    { subst ds'. destruct (last dayDeltas); [destruct (moveAllowed width range)|]; done. }
    unfold handleMouseUp. rewrite Hty, Hpr.
    destruct ty; case_bool_decide; eauto.
  - intros ->. destruct (last dayDeltas); by apply handleMouseUp_pressed.
  - intros ->. by apply handleMouseUp_pressed.
Qed.







End TimelineFacts.

(** ** Team definitions *)

Section TeamConfigFacts.
Import TeamConfig.

Lemma reassignIds_ids mappings : ∀ idx,
  mid <$> reassignIds idx mappings = (λ i, idx + 1 + Z.of_nat i) <$> seq 0 (length mappings).
Proof.
  induction mappings as [|m l IH]; intros idx; [done|]. cbn [reassignIds fmap list_fmap length seq].
  cbn [mid]. f_equal; [lia|]. rewrite IH, <-fmap_S_seq, <-list_fmap_compose.
  apply list_fmap_ext. intros ? i _. cbn. lia.
Qed.

Lemma reassignIds_length mappings : ∀ idx,
  length (reassignIds idx mappings) = length mappings.
Proof. induction mappings as [|m l IH]; intros idx; [done|]. cbn. by rewrite IH. Qed.

Lemma default_names_NoDup : NoDup (name <$> headcounts createDefaultTeamDefs).
Proof. apply (bool_decide_unpack _). vm_compute. exact I. Qed.

Lemma reassignIds_keys mappings : ∀ idx,
  (λ m, (team m, operation m)) <$> reassignIds idx mappings
  = (λ m, (team m, operation m)) <$> mappings.
Proof. induction mappings as [|m l IH]; intros idx; [done|]. cbn. by rewrite IH. Qed.

Lemma reassignIds_mappingKey mappings : ∀ idx,
  mappingKey <$> reassignIds idx mappings = mappingKey <$> mappings.
Proof. induction mappings as [|m l IH]; intros idx; [done|]. cbn. by rewrite IH. Qed.

Lemma reassignIds_twice mappings : ∀ idx,
  reassignIds idx (reassignIds idx mappings) = reassignIds idx mappings.
Proof. induction mappings as [|m l IH]; intros idx; [done|]. cbn. by rewrite IH. Qed.

Lemma filter_none {A} (P : A → Prop) `{∀ x, Decision (P x)} (l : list A) :
  (∀ x, x ∈ l → ¬ P x) → filter P l = [].
Proof.
  induction l as [|x l IH]; [done|]. intros Hl.
  rewrite filter_cons_False by (apply Hl; left). apply IH. intros y Hy. apply Hl. by right.
Qed.

Lemma merged_names_cover {A} (key : A → string) (loaded defaults : list A) d :
  d ∈ defaults →
  key d ∈ key <$> (loaded ++ filter (λ x, key x ∉ key <$> loaded) defaults).
Proof.
  intros Hd. rewrite fmap_app, elem_of_app.
  destruct (decide (key d ∈ key <$> loaded)) as [?|Hn]; [by left|right].
  apply list_elem_of_fmap. exists d. split; [done|]. by apply list_elem_of_filter.
Qed.

Lemma merged_again {A} (key : A → string) (loaded defaults : list A) :
  filter (λ x, key x ∉ key <$> (loaded ++ filter (λ x, key x ∉ key <$> loaded) defaults))
    defaults = [].
Proof. apply filter_none. intros d Hd Hn. apply Hn. by apply merged_names_cover. Qed.

(** X20. Loading a configuration keeps the loaded teams first and in
    order, adds every default team whose name is missing, and duplicates no
    name the loaded list did not duplicate; the mappings are the loaded
    ones followed by the missing default ones, numbered 1, 2, ... in order;
    merging the result once more changes nothing. *)
Theorem X20_loaded_teams_merge (loaded : TeamDefs) :
  let merged := mergeTeamDefs loaded in
  headcounts loaded `prefix_of` headcounts merged
  ∧ (∀ d, d ∈ headcounts createDefaultTeamDefs → name d ∈ name <$> headcounts merged)
  ∧ (NoDup (name <$> headcounts loaded) → NoDup (name <$> headcounts merged))
  ∧ mid <$> mapping merged = (λ i, 1 + Z.of_nat i) <$> seq 0 (length (mapping merged))
  ∧ (λ m, (team m, operation m)) <$> mapping loaded
      `prefix_of` (λ m, (team m, operation m)) <$> mapping merged
  ∧ (∀ d, d ∈ mapping createDefaultTeamDefs → mappingKey d ∈ mappingKey <$> mapping merged)
  ∧ mergeTeamDefs merged = merged.
Proof.
  intros merged. subst merged. unfold mergeTeamDefs. cbn [headcounts mapping].
  split; [eexists; reflexivity|]. split; [intros d; apply (merged_names_cover name)|]. split.
  { intros Hnd. rewrite fmap_app. apply NoDup_app. split; [done|]. split.
    - intros x Hx (h & -> & [Hh _]%list_elem_of_filter)%list_elem_of_fmap. done.
    - eapply sublist_NoDup; [apply default_names_NoDup|].
      apply fmap_sublist, sublist_filter. }
  split.
  { rewrite reassignIds_ids, reassignIds_length. apply list_fmap_ext. intros; lia. }
  split; [rewrite reassignIds_keys, fmap_app; eexists; reflexivity|].
  split.
  { intros d Hd. rewrite reassignIds_mappingKey. by apply (merged_names_cover mappingKey). }
  f_equal.
  - by rewrite (merged_again name), app_nil_r.
  - by rewrite reassignIds_mappingKey, (merged_again mappingKey), app_nil_r, reassignIds_twice.
Qed.

End TeamConfigFacts.

(** ** Legend and week labels *)

Section ChartFacts.
Import TeamConfig Charts.

Section OrderedOn.
Context {A : Type} (cmp : A → A → Z) (P : A → Prop).
Hypothesis cmp_anti : ∀ a b, P a → P b → Z.sgn (cmp b a) = - Z.sgn (cmp a b).
Hypothesis cmp_trans : ∀ a b c, P a → P b → P c → cmp a b ≤ 0 → cmp b c ≤ 0 → cmp a c ≤ 0.

Lemma sortInsert_ordered_on x l :
  P x → Forall P l →
  ordered (λ a b, cmp a b ≤ 0) l → ordered (λ a b, cmp a b ≤ 0) (sortInsert cmp x l).
Proof.
  intros Hx. induction l as [|y l IH]; intros HP Hl; cbn [sortInsert].
  - by split.
  - apply Forall_cons in HP as [Py HP]. destruct Hl as [Hy Hl].
    destruct (Z.leb_spec (cmp x y) 0) as [Hxy|Hxy].
    + split; [|by split]. constructor; [done|].
      rewrite Forall_forall in Hy, HP |- *. intros z Hz. eapply (cmp_trans x y z); auto.
    + split; [|by apply IH]. rewrite sortInsert_perm. constructor; [|done].
      pose proof (cmp_anti x y Hx Py). lia.
Qed.

Lemma sortBy_ordered_on l : Forall P l → ordered (λ a b, cmp a b ≤ 0) (sortBy cmp l).
Proof.
  unfold sortBy. induction 1 as [|x l Hx Hl IH]; cbn [foldr]; [done|].
  apply sortInsert_ordered_on; [done| |done].
  eapply Forall_forall. intros y Hy. fold (sortBy cmp l) in Hy. rewrite sortBy_elem in Hy.
  by eapply Forall_forall in Hl.
Qed.

End OrderedOn.

Lemma ordered_impl_on {A} (R R' : A → A → Prop) (l : list A) :
  (∀ a b, a ∈ l → b ∈ l → R a b → R' a b) → ordered R l → ordered R' l.
Proof.
  induction l as [|x l IH]; [done|]. intros Himp [Hx Hl]. split.
  - rewrite Forall_forall in Hx |- *. intros y Hy. apply Himp; [left|by right|by apply Hx].
  - apply IH; [|done]. intros a b Ha Hb. apply Himp; by right.
Qed.

(** Two arrangements of the same elements in the same strict order are equal. *)
Lemma ordered_unique {A} (R : A → A → Prop) (l1 l2 : list A) :
  (∀ a b, a ∈ l1 → b ∈ l1 → R a b → R b a → a = b) →
  ordered R l1 → ordered R l2 → l1 ≡ₚ l2 → l1 = l2.
Proof.
  revert l2. induction l1 as [|x l1 IH]; intros l2 Hanti H1 H2 Hperm.
  - by apply Permutation_nil_l in Hperm.
  - destruct l2 as [|y l2]; [by apply Permutation_nil_r in Hperm|].
    destruct H1 as [Hx H1], H2 as [Hy H2].
    assert (x = y) as ->.
    { assert (x ∈ y :: l2) as Hxin by (rewrite <-Hperm; left).
      assert (y ∈ x :: l1) as Hyin by (rewrite Hperm; left).
      apply elem_of_cons in Hxin as [?|Hxin]; [done|].
      apply elem_of_cons in Hyin as [?|Hyin]; [done|].
      rewrite Forall_forall in Hx, Hy. apply Hanti; [left|by right|by apply Hx|by apply Hy]. }
    f_equal. apply IH; [|done|done|by apply Permutation_cons_inv in Hperm].
    intros a b Ha Hb. apply Hanti; by right.
Qed.

Lemma ordered_filter {A} (R : A → A → Prop) (Q : A → Prop) `{∀ x, Decision (Q x)} l :
  ordered R l → ordered R (filter Q l).
Proof.
  induction l as [|x l IH]; [done|]. intros [Hx Hl]. rewrite filter_cons.
  case_decide; [|by apply IH]. split; [|by apply IH].
  rewrite Forall_forall in Hx |- *. intros y [_ Hy]%list_elem_of_filter. by apply Hx.
Qed.

Lemma indexOf_absent x order : ∀ i, x ∉ order → indexOf x order i = -1.
Proof.
  induction order as [|y l IH]; intros i Hx; [done|]. cbn [indexOf].
  rewrite (proj2 (String.eqb_neq y x)) by (intros ->; apply Hx; left).
  apply IH. intros ?. apply Hx. by right.
Qed.

Lemma indexOf_present x order : ∀ i, x ∈ order →
  i ≤ indexOf x order i ∧ indexOf x order i = i + indexOf x order 0.
Proof.
  induction order as [|y l IH]; intros i Hx; [by apply elem_of_nil in Hx|]. cbn [indexOf].
  destruct (String.eqb_spec y x) as [->|Hne]; [lia|].
  apply elem_of_cons in Hx as [->|Hx]; [done|].
  destruct (IH (i + 1) Hx) as [H1 H2], (IH (0 + 1) Hx) as [H3 H4]. lia.
Qed.

Lemma indexOf_inj order x y :
  x ∈ order → y ∈ order → indexOf x order 0 = indexOf y order 0 → x = y.
Proof.
  induction order as [|z l IH]; intros Hx Hy; [by apply elem_of_nil in Hx|]. cbn [indexOf].
  destruct (String.eqb_spec z x) as [Ezx|Hzx], (String.eqb_spec z y) as [Ezy|Hzy];
    [congruence|..].
  - apply elem_of_cons in Hy as [->|Hy]; [done|].
    destruct (indexOf_present y l (0 + 1) Hy). lia.
  - apply elem_of_cons in Hx as [->|Hx]; [done|].
    destruct (indexOf_present x l (0 + 1) Hx). lia.
  - apply elem_of_cons in Hx as [->|Hx]; [done|].
    apply elem_of_cons in Hy as [->|Hy]; [done|].
    destruct (indexOf_present x l (0 + 1) Hx) as [_ Ex], (indexOf_present y l (0 + 1) Hy) as [_ Ey].
    intros E. apply IH; [done|done|lia].
Qed.

Lemma order_ordered order :
  NoDup order → ordered (λ a b, indexOf a order 0 ≤ indexOf b order 0) order.
Proof.
  induction order as [|z l IH]; [done|]. intros [Hz Hnd]%NoDup_cons.
  assert (∀ x, x ∈ l → indexOf x (z :: l) 0 = 1 + indexOf x l 0) as Hshift.
  { intros x Hx. cbn [indexOf].
    rewrite (proj2 (String.eqb_neq z x)) by (intros ->; done).
    destruct (indexOf_present x l (0 + 1) Hx) as [_ ->]. lia. }
  split.
  - apply Forall_forall. intros x Hx. rewrite (Hshift x Hx). cbn [indexOf].
    rewrite String.eqb_refl. destruct (indexOf_present x l 0 Hx). lia.
  - specialize (IH Hnd). clear Hz Hnd. revert IH.
    assert (∀ l', (∀ x, x ∈ l' → x ∈ l) →
              ordered (λ a b, indexOf a l 0 ≤ indexOf b l 0) l' →
              ordered (λ a b, indexOf a (z :: l) 0 ≤ indexOf b (z :: l) 0) l') as H.
    { induction l' as [|a l' IHl']; [done|]. intros Hsub [Ha Hl'].
      split; [|apply IHl'; [intros; apply Hsub; by right|done]].
      rewrite Forall_forall in Ha |- *. intros b Hb.
      rewrite (Hshift a) by (apply Hsub; left).
      rewrite (Hshift b) by (apply Hsub; by right).
      specialize (Ha b Hb). lia. }
    by apply H.
Qed.

(** X21. When every team name is one of a duplicate-free sort order, the
    legend lists the distinct names in that order, and the entry at
    position [i] has colour [i mod 11] of [TEAM_COLORS]. *)
Theorem X21_legend_follows_sort_order (order teams : list string) :
  NoDup order →
  (∀ t, t ∈ teams → t ∈ order) →
  (uniqueTeams order teams).*1 = filter (λ t, t ∈ teams) order
  ∧ ∀ i t c, uniqueTeams order teams !! i = Some (t, c) →
      TEAM_COLORS !! (i mod 11)%nat = Some c.
Proof.
  intros Hnd Hknown. unfold uniqueTeams.
  set (sorted := sortBy (compareTeams order) (setOf [] teams)).
  assert (∀ t, t ∈ setOf [] teams ↔ t ∈ teams) as Hset.
  { intros t. rewrite setOf_elem. split; [by intros [? _]|].
    intros ?. split; [done|]. apply not_elem_of_nil. }
  assert (∀ a b, a ∈ order → b ∈ order →
            compareTeams order a b = indexOf a order 0 - indexOf b order 0) as Hcmp.
  { intros a b Ha Hb. unfold compareTeams.
    destruct (indexOf_present a order 0 Ha), (indexOf_present b order 0 Hb).
    destruct (Z.eqb_spec (indexOf a order 0) (-1)); [lia|].
    destruct (Z.eqb_spec (indexOf b order 0) (-1)); [lia|done]. }
  split.
  - rewrite fmap_imap. unfold compose. cbn [fst].
    assert (∀ l : list string, imap (λ (_ : nat) (x : string), x) l = l) as ->.
    { intros l. apply list_eq. intros i. rewrite list_lookup_imap. by destruct (l !! i). }
    apply (ordered_unique (λ a b, indexOf a order 0 ≤ indexOf b order 0)).
    + intros a b Ha Hb Hab Hba. subst sorted. rewrite sortBy_elem, Hset in Ha, Hb.
      apply (indexOf_inj order); [by apply Hknown|by apply Hknown|lia].
    + eapply ordered_impl_on; [|apply (sortBy_ordered_on _ (λ t, t ∈ order))].
      * intros a b Ha Hb Hab. subst sorted. rewrite sortBy_elem, Hset in Ha, Hb.
        cbv beta in Hab. rewrite Hcmp in Hab by by apply Hknown. lia.
      * intros a b Ha Hb. rewrite !Hcmp by done. lia.
      * intros a b c Ha Hb Hc. rewrite !Hcmp by done. lia.
      * apply Forall_forall. intros t Ht. apply Hknown. by apply Hset.
    + by apply ordered_filter, order_ordered.
    + apply NoDup_Permutation.
      * subst sorted. eapply NoDup_Permutation_proper; [apply sortBy_perm|].
        apply setOf_NoDup.
      * by apply NoDup_filter.
      * intros t. subst sorted. rewrite sortBy_elem, Hset, list_elem_of_filter.
        split; [intros ?; split; [done|by apply Hknown]|tauto].
  - intros i t c Hi. rewrite list_lookup_imap in Hi.
    destruct (sorted !! i) as [t'|]; [|done]. cbn [fmap option_fmap option_map] in Hi.
    injection Hi as <- <-.
    change (length TEAM_COLORS) with 11%nat.
    destruct (lookup_lt_is_Some_2 TEAM_COLORS (i mod 11)) as [c Hc].
    { apply Nat.mod_upper_bound. done. }
    change (10 - (Nat.divmod i 10 0 10).2)%nat with (i mod 11)%nat. by rewrite Hc.
Qed.

(** X22. At most nine weeks pass the label test of the line charts, at
    most eight when there are ten weeks or more, and the first week always
    passes. *)
Theorem X22_week_labels_bounded (n : nat) :
  (length (filter (λ i, weekLabelShown n i = true) (seq 0 n)) ≤ 9)%nat
  ∧ ((10 ≤ n)%nat → (length (filter (λ i, weekLabelShown n i = true) (seq 0 n)) ≤ 8)%nat)
  ∧ ((0 < n)%nat → weekLabelShown n 0 = true).
Proof.
  assert ((10 ≤ n)%nat →
          (length (filter (λ i, weekLabelShown n i = true) (seq 0 n)) ≤ 8)%nat) as Hbig.
  { intros Hn. set (s := ((n + 7) / 8)%nat).
    assert (2 ≤ s)%nat as Hs.
    { subst s. apply Nat.div_le_lower_bound; lia. }
    assert (n ≤ 8 * s)%nat as Hns.
    { subst s. pose proof (Nat.div_mod_eq (n + 7) 8). pose proof (Nat.mod_upper_bound (n + 7) 8).
      lia. }
    set (l := filter (λ i, weekLabelShown n i = true) (seq 0 n)).
    assert (∀ i, i ∈ l → (i < n ∧ i mod s = 0)%nat) as Hl.
    { intros i [Hi Hin]%list_elem_of_filter. apply elem_of_seq in Hin.
      unfold weekLabelShown in Hi. fold s in Hi.
      apply orb_true_iff in Hi as [Hi|Hi]; [apply Nat.ltb_lt in Hi; lia|].
      apply Nat.eqb_eq in Hi. lia. }
    rewrite <-(length_fmap (λ i, i / s)%nat).
    change 8%nat with (length (seq 0 8)). apply submseteq_length, NoDup_submseteq.
    - apply (NoDup_fmap_2_strong _).
      + intros i j Hi Hj E. apply Hl in Hi as [_ Hi], Hj as [_ Hj].
        pose proof (Nat.div_mod_eq i s). pose proof (Nat.div_mod_eq j s). nia.
      + apply NoDup_filter, NoDup_seq.
    - intros k (i & -> & Hi)%list_elem_of_fmap. apply Hl in Hi as [Hi Hm].
      apply elem_of_seq. split; [lia|].
      assert (i / s < 8)%nat; [|lia]. apply Nat.Div0.div_lt_upper_bound. lia. }
  split; [|split; [done|]].
  - destruct (Nat.le_gt_cases 10 n) as [Hn|Hn]; [specialize (Hbig Hn); lia|].
    etrans; [apply length_filter|]. rewrite length_seq. lia.
  - intros Hn. unfold weekLabelShown. apply orb_true_iff. right.
    by rewrite Nat.Div0.mod_0_l.
Qed.

End ChartFacts.

(** ** The reference host's comparison is consistent *)

Section RefHostFacts.

Lemma ascii_compare_trans a b c :
  Ascii.compare a b ≠ Gt → Ascii.compare b c ≠ Gt →
  Ascii.compare a c ≠ Gt
  ∧ (Ascii.compare a c = Eq → Ascii.compare a b = Eq ∧ Ascii.compare b c = Eq).
Proof.
  unfold Ascii.compare. rewrite !N.compare_eq_iff.
  intros Hab Hbc.
  change (N_of_ascii a ≤ N_of_ascii b)%N in Hab. change (N_of_ascii b ≤ N_of_ascii c)%N in Hbc.
  change ((N_of_ascii a ≤ N_of_ascii c)%N
          ∧ (N_of_ascii a = N_of_ascii c →
             N_of_ascii a = N_of_ascii b ∧ N_of_ascii b = N_of_ascii c)).
  lia.
Qed.

Lemma string_compare_trans a : ∀ b c,
  String.compare a b ≠ Gt → String.compare b c ≠ Gt → String.compare a c ≠ Gt.
Proof.
  induction a as [|x a IH]; intros [|y b] [|z c]; cbn [String.compare]; try done.
  intros Hab Hbc.
  assert (Ascii.compare x y ≠ Gt) as Hxy by (by destruct (Ascii.compare x y)).
  assert (Ascii.compare y z ≠ Gt) as Hyz by (by destruct (Ascii.compare y z)).
  destruct (ascii_compare_trans x y z Hxy Hyz) as [Hxz Heq].
  destruct (Ascii.compare x z) eqn:Exz; [|done|done].
  destruct (Heq eq_refl) as [E1 E2]. rewrite E1 in Hab. rewrite E2 in Hbc. by apply (IH b c).
Qed.

Lemma refHost_consistent : consistent RefHost.localeCompare.
Proof.
  split.
  - intros a b. unfold RefHost.localeCompare. rewrite (String.compare_antisym a b).
    by destruct (String.compare b a).
  - intros a b c. unfold RefHost.localeCompare.
    pose proof (string_compare_trans a b c) as H.
    destruct (String.compare a b), (String.compare b c), (String.compare a c);
      try done; intros _ _; exfalso; by apply H.
Qed.

End RefHostFacts.

(** ** Examples *)

Section FurtherExamples.
Import JsDate Aggregation Gantt Timeline Builder TeamConfig Charts.

(** Three projects of one store come out in name order. *)
Lemma X11_witness :
  let project := projectSummaryList (RefHost.newDate 0) RefHost.localeCompare ∅
                   [projectY; projectJuly; projectX] in
  (Project ∘ row) <$> project = ["Project J"; "Project X"; "Project Y"]
  ∧ project ≡ₚ summarize (RefHost.newDate 0) ∅ <$> [projectY; projectJuly; projectX].
Proof.
  intros project.
  destruct (X11_summaries_ordered (RefHost.newDate 0) RefHost.localeCompare ∅
              [projectY; projectJuly; projectX] refHost_consistent) as (_ & Hperm & _).
  split; [vm_compute; reflexivity|exact Hperm].
Defined.

(** A store whose only project finished five days late. *)
Lemma X12_witness :
  let r := {| sStore := "Store-A"; sStartDate := "2025-07-03"; sFinishDate := "2025-07-20";
              sDueDate := "2025-07-15"; sDaysVariance := -5 |} in
  storeSummaryList (RefHost.newDate 0) RefHost.localeCompare ∅
    (projectSummaryList (RefHost.newDate 0) RefHost.localeCompare ∅ [projectY]) = [r]
  ∧ sDaysVariance r ≤ 0.
Proof.
  intros r.
  assert (storeSummaryList (RefHost.newDate 0) RefHost.localeCompare ∅
            (projectSummaryList (RefHost.newDate 0) RefHost.localeCompare ∅ [projectY]) = [r])
    as E by (vm_compute; reflexivity).
  split; [exact E|].
  apply (X12_store_variance_sign (RefHost.newDate 0) RefHost.localeCompare ∅ [projectY] r).
  - rewrite E. left.
  - intros p s f d Hp%list_elem_of_singleton _ Hd. subst p.
    vm_compute in Hd. injection Hd as <- <- <-. reflexivity.
Defined.

(** One o'clock in the morning of 2025-07-01, two hours east of UTC. *)
Lemma X16_witness :
  let t := utc tzEast (20270 * msPerDay + 3600000) in
  formatDateForGantt tzEast (RefHost.newDate tzEast) (ArgDate (Some t)) = "7/1"
  ∧ formatDate (Some t) = "2025-06-30".
Proof.
  intros t.
  destruct (X16_label_and_iso_text tzEast (RefHost.newDate tzEast) 20270 3600000)
    as (Hlabel & Hiso & _).
  - split; [lia|reflexivity].
  - subst t. rewrite Hlabel, Hiso. split; vm_compute; reflexivity.
Defined.


(** Checking Maze, then all, then unchecking Maze leaves Arcade. *)
Lemma X14_witness :
  let templates := projectTemplates routingExample in
  let b := fold_left (act templates) [Toggle (Some "Maze"); SelectAll true; Toggle (Some "Maze")]
             emptyBuilder in
  templates = [Some "Arcade"; Some "Maze"]
  ∧ selectedTemplates b = [Some "Arcade"]
  ∧ NoDup (selectedTemplates b)
  ∧ selectAllChecked templates b = false.
Proof.
  intros templates b.
  destruct (X14_template_boxes routingExample emptyBuilder
              [Toggle (Some "Maze"); SelectAll true; Toggle (Some "Maze")])
    as (_ & Hnd & _ & _).
  - reflexivity.
  - assert (Some "Maze" ∈ projectTemplates routingExample) as Hin
      by (apply (bool_decide_unpack _); vm_compute; exact I).
    repeat (constructor; [first [exact Hin | exact I]|]). constructor.
  - split; [vm_compute; reflexivity|]. split; [vm_compute; reflexivity|].
    split; [exact Hnd|vm_compute; reflexivity].
Defined.

(** Three teams named out of order and more than once. *)
Lemma X21_witness :
  (uniqueTeams TEAM_SORT_ORDER ["Paint"; "CNC"; "Paint"; "QC"; "CNC"]).*1
  = ["CNC"; "Paint"; "QC"].
Proof.
  destruct (X21_legend_follows_sort_order TEAM_SORT_ORDER ["Paint"; "CNC"; "Paint"; "QC"; "CNC"])
    as [Hnames _].
  - apply (bool_decide_unpack _). vm_compute. exact I.
  - apply Forall_forall. apply (bool_decide_unpack _). vm_compute. exact I.
  - rewrite Hnames. vm_compute. reflexivity.
Defined.

End FurtherExamples.
